(** * The For You feed simulator (simulator.py): scoring, author diversity
      decay, video bonus and the ranking pipeline.

    Python floats are IEEE 754 binary64 numbers: they are modelled by Rocq's
    primitive floats, whose [+], [*], [<], [<=] and [==] are the same
    operations.  Strings are [string], the [author_counts] dict is a
    [gmap string nat], the [user_following] set a [gset string]. *)

From Stdlib Require Import ZArith Floats Lia.
From stdpp Require Import base option list sorting strings gmap.

Local Open Scope string_scope.
Local Open Scope list_scope.
Local Open Scope stdpp_scope.
Set Warnings "-inexact-float".

(** ** Exceptions and the two monads of the program *)

Inductive exn : Type :=
  | AttributeError (name : string)
  | IndexError.

(** A pure computation that may raise. *)
Inductive result (A : Type) : Type :=
  | Ok (a : A)
  | Raise (e : exn).
Arguments Ok {A} a.
Arguments Raise {A} e.

Global Instance result_ret : MRet result := fun A a => Ok a.
Global Instance result_bind : MBind result := fun A B f m =>
  match m with
  | Ok a => f a
  | Raise e => Raise e
  end.

(** ** Data model *)

Record Post : Type := mkPost {
  id : string;
  author_id : string;
  text : string;
  has_video : bool;
  video_duration_sec : option float;
  is_in_network : bool
}.

Record EngagementPredictions : Type := mkPredictions {
  favorite : float;
  reply : float;
  repost : float;
  quote : float;
  click : float;
  profile_click : float;
  video_view : float;
  photo_expand : float;
  share : float;
  dwell : float;
  follow_author : float;
  not_interested : float;
  block_author : float;
  mute_author : float;
  report : float
}.

(** [ACTION_WEIGHTS]: a dict literal; iteration follows insertion order, so
    the table is kept as the list of its items. *)
Definition ACTION_WEIGHTS : list (string * float) :=
  [ ("favorite", 1.0%float);
    ("reply", 2.0%float);
    ("repost", 1.5%float);
    ("quote", 2.5%float);
    ("click", 0.5%float);
    ("profile_click", 0.3%float);
    ("video_view", 0.8%float);
    ("photo_expand", 0.3%float);
    ("share", 1.5%float);
    ("dwell", 0.2%float);
    ("follow_author", 3.0%float);
    ("not_interested", (-5.0)%float);
    ("block_author", (-10.0)%float);
    ("mute_author", (-8.0)%float);
    ("report", (-15.0)%float) ].

(** The attributes of an [EngagementPredictions] instance, by name. *)
Definition fields (p : EngagementPredictions) : list (string * float) :=
  [ ("favorite", favorite p);
    ("reply", reply p);
    ("repost", repost p);
    ("quote", quote p);
    ("click", click p);
    ("profile_click", profile_click p);
    ("video_view", video_view p);
    ("photo_expand", photo_expand p);
    ("share", share p);
    ("dwell", dwell p);
    ("follow_author", follow_author p);
    ("not_interested", not_interested p);
    ("block_author", block_author p);
    ("mute_author", mute_author p);
    ("report", report p) ].

Fixpoint assoc {A : Type} (name : string) (kvs : list (string * A)) : option A :=
  match kvs with
  | [] => None
  | (k, v) :: kvs => if String.eqb name k then Some v else assoc name kvs
  end.

(** [getattr(predictions, action)] for the name of a prediction, which
    gives the value of the field, and for a name that is no attribute of the
    object, which raises AttributeError.  (The attributes every object has
    besides its fields, [__doc__] or [__class__] say, are not part of the
    model; the properties of scoring are stated for tables that name
    predictions.) *)
Definition getattr (predictions : EngagementPredictions) (action : string)
  : result float :=
  match assoc action (fields predictions) with
  | Some v => Ok v
  | None => Raise (AttributeError action)
  end.

(** ** compute_weighted_score *)

(** The loop [for action, weight in ACTION_WEIGHTS.items()], with the
    running [score]. *)
Fixpoint weighted_score_loop (items : list (string * float))
    (predictions : EngagementPredictions) (score : float) : result float :=
  match items with
  | [] => Ok score
  | (action, weight) :: items =>
      probability ← getattr predictions action;
      weighted_score_loop items predictions (score + weight * probability)%float
  end.

(** The function reads the module-level table; [compute_weighted_score_with]
    makes the table it reads explicit. *)
Definition compute_weighted_score_with (weights : list (string * float))
    (predictions : EngagementPredictions) : result float :=
  weighted_score_loop weights predictions 0.0%float.

Definition compute_weighted_score (predictions : EngagementPredictions)
  : result float :=
  compute_weighted_score_with ACTION_WEIGHTS predictions.

(** ** video_quality_bonus *)

Definition video_quality_bonus (post : Post) : float :=
  match has_video post, video_duration_sec post with
  | false, _ | _, None => 0.0%float
  | true, Some duration =>
      if (15 <=? duration)%float && (duration <=? 60)%float then 0.5%float
      else if ((5 <=? duration)%float && (duration <? 15)%float)
              || ((60 <? duration)%float && (duration <=? 180)%float)
      then 0.3%float
      else 0.1%float
  end.

(** [x == x] fails exactly on NaN. *)
Definition not_nan (x : float) : bool := (x =? x)%float.

(** [min(a, b)] and [max(a, b)] of the builtins: the first argument is kept
    unless the second is strictly smaller (resp. larger). *)
Definition py_min (a b : float) : float := if (b <? a)%float then b else a.
Definition py_max (a b : float) : float := if (a <? b)%float then b else a.

(** [list.sort(key=..., reverse=True)]: a stable sort into descending key
    order that compares keys with [<] only.  An element moves behind another
    one only when its key is strictly smaller.  (With NaN keys [<] is no
    longer a strict weak order and CPython's result depends on the merge
    pattern of its sort; the model fixes insertion order there.) *)
Fixpoint insert_desc {A : Type} (key : A -> float) (x : A) (l : list A)
  : list A :=
  match l with
  | [] => [x]
  | y :: l' =>
      if (key x <? key y)%float then y :: insert_desc key x l'
      else x :: y :: l'
  end.

Definition sort_reverse {A : Type} (key : A -> float) (l : list A) : list A :=
  foldr (insert_desc key) [] l.

(** [enumerate(l)] *)
Definition enumerate {A : Type} (l : list A) : list (nat * A) :=
  imap (fun i x => (i, x)) l.

Section Simulator.

(** The state of the [random] module and its [uniform(a, b)]. *)
Variable rng : Type.
Variable uniform : float -> float -> rng -> float * rng.

(** [x ** n] for a float [x] and a non-negative int [n]: the value the
    platform's [pow] returns, taken as a function of the two arguments.
    CPython returns that value whenever the power does not overflow: for
    every base of absolute value at most 1 (the 0.7 of the pipeline among
    them) and, whatever the base, for the exponents 0 and 1.  For a larger
    base and exponent it raises OverflowError once the power overflows;
    the statements about the decay with an arbitrary factor are therefore
    made on the factors and inputs for which the power returns. *)
Variable float_pow : float -> nat -> float.

(** Code that reads and advances the generator. *)
Definition state (A : Type) : Type := rng -> A * rng.

Global Instance state_ret : MRet state := fun A a st => (a, st).
Global Instance state_bind : MBind state := fun A B f m st =>
  let '(a, st') := m st in f a st'.

(** Code that reads and advances the generator and may raise. *)
Definition prog (A : Type) : Type := rng -> result A * rng.

Global Instance prog_ret : MRet prog := fun A a st => (Ok a, st).
Global Instance prog_bind : MBind prog := fun A B f m st =>
  match m st with
  | (Ok a, st') => f a st'
  | (Raise e, st') => (Raise e, st')
  end.

Definition lift_state {A : Type} (m : state A) : prog A :=
  fun st => let '(a, st') := m st in (Ok a, st').
Definition lift_result {A : Type} (r : result A) : prog A :=
  fun st => (r, st).

(** ** simulate_phoenix_predictions *)

Definition random_uniform (a b : float) : state float := uniform a b.

Definition simulate_phoenix_predictions (post : Post)
    (user_follows_author : bool) : state EngagementPredictions :=
  base ← random_uniform 0.01 0.05;
  let network_boost := if user_follows_author then 1.5%float else 1.0%float in
  let video_boost := if has_video post then 1.3%float else 1.0%float in
  u_favorite ← random_uniform 0 0.1;
  u_reply ← random_uniform 0 0.03;
  u_repost ← random_uniform 0 0.05;
  u_quote ← random_uniform 0 0.02;
  u_click ← random_uniform 0 0.15;
  u_profile_click ← random_uniform 0 0.05;
  u_photo_expand ← random_uniform 0 0.05;
  u_share ← random_uniform 0 0.03;
  u_dwell ← random_uniform 0 0.2;
  u_not_interested ← random_uniform 0 0.02;
  u_block_author ← random_uniform 0 0.005;
  u_mute_author ← random_uniform 0 0.008;
  u_report ← random_uniform 0 0.002;
  mret {|
    favorite := py_min 0.95 (base * 3 * network_boost + u_favorite)%float;
    reply := py_min 0.95 (base * 0.5 * network_boost + u_reply)%float;
    repost := py_min 0.95 (base * 0.8 * network_boost + u_repost)%float;
    quote := py_min 0.95 (base * 0.3 * network_boost + u_quote)%float;
    click := py_min 0.95 (base * 2 + u_click)%float;
    profile_click := py_min 0.95 (base * 0.4 + u_profile_click)%float;
    video_view :=
      py_min 0.95 (if has_video post then (base * 4 * video_boost)%float
                   else 0.01%float);
    photo_expand := py_min 0.95 (base * 0.6 + u_photo_expand)%float;
    share := py_min 0.95 (base * 0.4 * network_boost + u_share)%float;
    dwell := py_min 0.95 (base * 5 + u_dwell)%float;
    follow_author :=
      py_min 0.95 (if negb user_follows_author then (base * 0.1)%float
                   else 0.001%float);
    not_interested := py_max 0.001 u_not_interested;
    block_author := py_max 0.001 u_block_author;
    mute_author := py_max 0.001 u_mute_author;
    report := py_max 0.001 u_report
  |}.

(** ** apply_author_diversity_decay *)

(** One iteration of the loop over [posts_with_scores]; the loop state is
    [(author_counts, adjusted_results)]. *)
Definition decay_step (decay_factor : float)
    (st : gmap string nat * list (Post * float)) (item : Post * float)
  : gmap string nat * list (Post * float) :=
  let '(author_counts, adjusted_results) := st in
  let '(post, score) := item in
  let count := default 0 (author_counts !! author_id post) in
  let adjusted_score := (score * float_pow decay_factor count)%float in
  (<[author_id post := count + 1]> author_counts,
   adjusted_results ++ [(post, adjusted_score)]).

Definition apply_author_diversity_decay
    (posts_with_scores : list (Post * float)) (decay_factor : float)
  : list (Post * float) :=
  (fold_left (decay_step decay_factor) posts_with_scores (∅, [])).2.

(** The default of the [decay_factor] parameter. *)
Definition default_decay_factor : float := 0.7%float.

(** ** rank_posts *)

Definition scored : Type := Post * float * EngagementPredictions.

Definition score_of (x : scored) : float := x.1.2.

(** The predictor [rank_posts] calls is the module-level name
    [simulate_phoenix_predictions]; the pipeline is written over the
    predictor bound to that name. *)
Section Pipeline.
Variable predictor : Post -> bool -> state EngagementPredictions.
Variable user_following : gset string.

(** The loop [for post in posts] (steps 1 to 3), with the list
    [scored_posts] built so far. *)
Fixpoint score_loop (posts : list Post) (scored_posts : list scored)
  : prog (list scored) :=
  match posts with
  | [] => mret scored_posts
  | post :: posts =>
      let user_follows := bool_decide (author_id post ∈ user_following) in
      predictions ← lift_state (predictor post user_follows);
      base_score ← lift_result (compute_weighted_score predictions);
      let video_bonus := video_quality_bonus post in
      let score := (base_score + video_bonus)%float in
      score_loop posts (scored_posts ++ [(post, score, predictions)])
  end.

(** The loop [for i, (post, adjusted_score) in enumerate(adjusted)];
    [scored_posts[i]] raises IndexError out of range. *)
Fixpoint rebuild_loop (scored_posts : list scored)
    (adjusted : list (nat * (Post * float))) (final_results : list scored)
  : result (list scored) :=
  match adjusted with
  | [] => Ok final_results
  | (i, (post, adjusted_score)) :: adjusted =>
      match scored_posts !! i with
      | None => Raise IndexError
      | Some (_, _, predictions) =>
          rebuild_loop scored_posts adjusted
            (final_results ++ [(post, adjusted_score, predictions)])
      end
  end.

Definition rank_posts_with (posts : list Post) : prog (list scored) :=
  scored_posts ← score_loop posts [];
  let scored_posts := sort_reverse score_of scored_posts in
  let posts_scores := (fun x : scored => (x.1.1, x.1.2)) <$> scored_posts in
  let adjusted :=
    apply_author_diversity_decay posts_scores default_decay_factor in
  final_results ←
    lift_result (rebuild_loop scored_posts (enumerate adjusted) []);
  mret (sort_reverse score_of final_results).
End Pipeline.

Definition rank_posts (posts : list Post) (user_following : gset string)
  : prog (list scored) :=
  rank_posts_with simulate_phoenix_predictions user_following posts.

End Simulator.

(** * Specification-level definitions *)

(** The fold [compute_weighted_score] performs, term by term: the running
    score starts at 0.0 and the products are added in the order of the
    table. *)
Definition weighted_sum (p : EngagementPredictions) : float :=
  (0.0 + 1.0 * favorite p + 2.0 * reply p + 1.5 * repost p + 2.5 * quote p
   + 0.5 * click p + 0.3 * profile_click p + 0.8 * video_view p
   + 0.3 * photo_expand p + 1.5 * share p + 0.2 * dwell p
   + 3.0 * follow_author p + -5.0 * not_interested p
   + -10.0 * block_author p + -8.0 * mute_author p + -15.0 * report p)%float.

(** What scoring does with an arbitrary weight table: the first entry that
    names no attribute of the predictions raises, otherwise the entries are
    summed in order. *)
Definition value_of (p : EngagementPredictions) (name : string) : float :=
  default 0.0%float (assoc name (fields p)).

Definition is_field (p : EngagementPredictions) (name : string) : bool :=
  bool_decide (is_Some (assoc name (fields p))).

Definition weighted_score_spec (weights : list (string * float))
    (p : EngagementPredictions) : result float :=
  match find (fun kv => negb (is_field p kv.1)) weights with
  | Some kv => Raise (AttributeError kv.1)
  | None =>
      Ok (fold_left (fun score kv => (score + kv.2 * value_of p kv.1)%float)
            weights 0.0%float)
  end.

(** The module's table with the entry for "report" left out. *)
Definition weights_without_report : list (string * float) :=
  filter (fun kv => kv.1 <> "report") ACTION_WEIGHTS.

Section Spec.

Variable rng : Type.
Variable float_pow : float -> nat -> float.

(** Number of items of [l] whose author is [a]. *)
Definition count_author (l : list (Post * float)) (a : string) : nat :=
  length (filter (fun x => author_id x.1 = a) l).

(** DiversityDecay as the specification words it: the item at position [k]
    keeps its place and has its score multiplied by the factor raised to the
    number of strictly earlier items of the same author. *)
Definition decay_spec (l : list (Post * float)) (factor : float)
  : list (Post * float) :=
  imap (fun k x =>
          (x.1, (x.2 * float_pow factor
                         (count_author (take k l) (author_id x.1)))%float)) l.

(** The (0, 1] interval of the decay contract. *)
Definition valid_decay_factor (factor : float) : bool :=
  (0 <? factor)%float && (factor <=? 1)%float.

Variable predictor : Post -> bool -> state rng EngagementPredictions.
Variable user_following : gset string.

(** Step 1: one predictor call per item, in input order. *)
Fixpoint predict_all (posts : list Post)
  : state rng (list EngagementPredictions) :=
  match posts with
  | [] => mret []
  | post :: posts =>
      predictions ←
        predictor post (bool_decide (author_id post ∈ user_following));
      rest ← predict_all posts;
      mret (predictions :: rest)
  end.

(** Steps 2 and 3. *)
Definition pre_diversity_score (post : Post)
    (predictions : EngagementPredictions) : float :=
  (weighted_sum predictions + video_quality_bonus post)%float.

Definition scored_in_input_order (posts : list Post)
    (preds : list EngagementPredictions) : list (scored) :=
  zip_with (fun post pr => (post, pre_diversity_score post pr, pr)) posts preds.

(** Step 4. *)
Definition ranked_pre_decay (posts : list Post)
    (preds : list EngagementPredictions) : list scored :=
  sort_reverse score_of (scored_in_input_order posts preds).

(** Step 5, each decayed pair put back with the predictions found at the
    same position of the pre-decay ranking. *)
Definition decayed (posts : list Post) (preds : list EngagementPredictions)
  : list scored :=
  let ranked := ranked_pre_decay posts preds in
  zip_with (fun (ps : Post * float) (x : scored) => (ps.1, ps.2, x.2))
    (apply_author_diversity_decay float_pow
       ((fun x : scored => (x.1.1, x.1.2)) <$> ranked) 0.7%float)
    ranked.

(** Step 6. *)
Definition pipeline (posts : list Post) (preds : list EngagementPredictions)
  : list scored :=
  sort_reverse score_of (decayed posts preds).

(** The items of a list of triples, and each item with its predictions. *)
Definition items (l : list scored) : list Post := (fun x : scored => x.1.1) <$> l.

Definition item_predictions (l : list scored)
  : list (Post * EngagementPredictions) :=
  (fun x : scored => (x.1.1, x.2)) <$> l.

(** The elements of [l] whose score equals (by [==]) the score [k], in the
    order of [l]. *)
Definition tied (k : float) (l : list scored) : list scored :=
  filter (fun x => (score_of x =? k)%float = true) l.


End Spec.

(** Where [**] is known to return: a factor of absolute value at most 1
    never overflows, and with at most two items per author the exponents
    are 0 and 1, which never overflow whatever the factor. *)
Definition unit_factor (factor : float) : bool := (abs factor <=? 1)%float.

Definition at_most_two_per_author (l : list (Post * float)) : Prop :=
  forall a, count_author l a <= 2.

(** ** Instances for the examples *)

(** A generator state that is the list of the values [random()] will
    return; [uniform(a, b)] is [a + (b - a) * random()]. *)
Definition stream_uniform (a b : float) (st : list float)
  : float * list float :=
  match st with
  | [] => (a, [])
  | u :: st' => ((a + (b - a) * u)%float, st')
  end.

(** A power by repeated multiplication: [x ** 0 = 1.0] and [x ** 1 = x]. *)
Definition pow_iter (x : float) (n : nat) : float :=
  Nat.iter n (fun acc => (acc * x)%float) 1.0%float.

(** A post with a video of the given duration, and one whose duration
    field is set although it has no video. *)
Definition video_post (duration : float) : Post :=
  mkPost "v" "viral_account" "clip" true (Some duration) false.

Definition no_video_post (duration : option float) : Post :=
  mkPost "t" "news_org" "text only" false duration false.

(** Predictions with every probability at 0.5. *)
Definition half_predictions : EngagementPredictions :=
  mkPredictions 0.5 0.5 0.5 0.5 0.5 0.5 0.5 0.5 0.5 0.5 0.5 0.5 0.5 0.5 0.5.

(** A predictor stub that ignores the generator: the favorite probability
    is read off the post's text, every other probability is 0. *)
Definition stub_predictions (favorite : float) : EngagementPredictions :=
  mkPredictions favorite 0 0 0 0 0 0 0 0 0 0 0 0 0 0.

Definition stub_predictor {rng : Type} (post : Post) (follows : bool)
  : state rng EngagementPredictions :=
  mret (stub_predictions
          (if String.eqb (text post) "strong" then 1.0%float
           else if String.eqb (text post) "weak" then 0.7%float
           else 0.5%float)).

(** Three posts, the first by an author the viewer does not follow, and
    the forty-two values [random()] returns while they are scored (fourteen
    per post, each a multiple of 2^-53 in [0, 1)). *)
Definition post_y : Post := mkPost "1" "bob" "Hot take" false None false.
Definition post_x1 : Post := mkPost "2" "alice" "New feature" false None true.
Definition post_x2 : Post := mkPost "3" "alice" "Follow-up" false None true.

Definition tie_posts : list Post := [post_y; post_x1; post_x2].

Definition tie_following : gset string := {["alice"]}.

Definition tie_stream : list float :=
  [0; 0.125; 0; 0; 0; 0; 0; 0; 0; 0; 0; 0; 0; 0x1.88f5c28f5c293p-1]%float
  ++ replicate 28 0%float.

(** The demo's six posts and the two authors its viewer follows. *)
Definition demo_posts : list Post :=
  [ mkPost "1" "alice" "Just shipped a new feature!" false None true;
    mkPost "2" "alice" "Follow-up: the technical deep dive" false None true;
    mkPost "3" "bob" "Hot take: tabs are better than spaces" false None true;
    mkPost "4" "viral_account" "This video will change how you think"
      true (Some 45%float) false;
    mkPost "5" "news_org" "Breaking: major announcement" false None false;
    mkPost "6" "viral_account" "Another banger video for you"
      true (Some 120%float) false ].

Definition demo_following : gset string := {["alice"; "bob"]}.

(** Two posts of one author for the stub predictor, the stronger one
    second. *)
Definition stub_posts : list Post :=
  [ mkPost "1" "alice" "weak" false None true;
    mkPost "2" "alice" "strong" false None true ].

(** The values [random()] returns in two runs over the demo's posts. *)
Definition demo_stream : list float := replicate 84 0.5%float.
Definition zero_stream : list float := replicate 84 0%float.


(** ** Definitions for the further properties *)

(** The eleven probabilities the predictor caps from above and the four it
    floors from below. *)
Definition positive_signals (p : EngagementPredictions) : list float :=
  [ favorite p; reply p; repost p; quote p; click p; profile_click p;
    video_view p; photo_expand p; share p; dwell p; follow_author p ].

Definition negative_signals (p : EngagementPredictions) : list float :=
  [ not_interested p; block_author p; mute_author p; report p ].

(** The arguments of the fourteen [random.uniform] calls of one
    [simulate_phoenix_predictions] call, in the order they are made. *)
Definition draw_bounds : list (float * float) :=
  [ (0.01, 0.05); (0, 0.1); (0, 0.03); (0, 0.05); (0, 0.02); (0, 0.15);
    (0, 0.05); (0, 0.05); (0, 0.03); (0, 0.2); (0, 0.02); (0, 0.005);
    (0, 0.008); (0, 0.002) ]%float.

Section FurtherSpec.

Variable rng : Type.
Variable uniform : float -> float -> rng -> float * rng.
Variable float_pow : float -> nat -> float.

(** The generator after the fourteen draws of [draw_bounds]. *)
Definition advance (st : rng) : rng :=
  fold_left (fun s ab => (uniform ab.1 ab.2 s).2) draw_bounds st.

(** The dict [author_counts] when the loop of
    [apply_author_diversity_decay] ends. *)
Definition final_author_counts (posts_with_scores : list (Post * float))
    (decay_factor : float) : gmap string nat :=
  (fold_left (decay_step float_pow decay_factor) posts_with_scores (∅, [])).1.

(** The items of [l] by author [a], in the order of [l]. *)
Definition by_author (a : string) (l : list (Post * float))
  : list (Post * float) :=
  filter (fun x => author_id x.1 = a) l.

(** The number of posts of [posts] by author [a]. *)
Definition posts_by (a : string) (posts : list Post) : nat :=
  length (filter (fun post => author_id post = a) posts).

End FurtherSpec.

(** A post with its in-network flag cleared and its text and id blanked:
    the author and the video attributes are kept. *)
Definition anonymise (post : Post) : Post :=
  mkPost "" (author_id post) "" (has_video post) (video_duration_sec post)
    false.

(** A change [g] of the posts carried over to the triples and pairs that
    hold them. *)
Definition relabel (g : Post -> Post) (x : scored) : scored :=
  (g x.1.1, x.1.2, x.2).

Definition relabel_pair (g : Post -> Post) (y : Post * float)
  : Post * float :=
  (g y.1, y.2).

(** A following set with one more author than the demo's. *)
Definition wider_following : gset string := {["alice"; "bob"; "carol"]}.

(** Predictions whose report probability is NaN. *)
Definition nan_report_predictions : EngagementPredictions :=
  mkPredictions 0.5 0.5 0.5 0.5 0.5 0.5 0.5 0.5 0.5 0.5 0.5 0.5 0.5 0.5 nan.

(** * Properties *)

(** ** Float comparison

    The comparisons of primitive floats are specified by [SFcompare] on
    their decoding [Prim2SF]; the order facts used below are derived from
    that specification. *)

Module FloatOrder.

Ltac cmp_cases :=
  repeat match goal with
  | |- context [Z.compare ?a ?b] => destruct (Z.compare_spec a b)
  | H : context [Z.compare ?a ?b] |- _ => destruct (Z.compare_spec a b)
  | |- context [Pos.compare_cont Eq ?a ?b] =>
      change (Pos.compare_cont Eq a b) with (Pos.compare a b);
      destruct (Pos.compare_spec a b)
  | H : context [Pos.compare_cont Eq ?a ?b] |- _ =>
      change (Pos.compare_cont Eq a b) with (Pos.compare a b) in H;
      destruct (Pos.compare_spec a b)
  end.

Ltac by_cases3 x y z :=
  destruct x as [[]|[]| |[] ? ?], y as [[]|[]| |[] ? ?], z as [[]|[]| |[] ? ?];
  simpl; intros; try congruence;
  cmp_cases; subst; try congruence; try lia; simpl in *; try congruence.

Lemma SFcompare_antisym x y :
  SFcompare y x = option_map CompOpp (SFcompare x y).
Proof.
  destruct x as [[]|[]| |[] m1 e1], y as [[]|[]| |[] m2 e2]; simpl;
    try reflexivity;
    rewrite (Z.compare_antisym e1 e2); destruct (e1 ?= e2)%Z; simpl;
    try reflexivity.
  all: change (Pos.compare_cont Eq m2 m1) with (Pos.compare m2 m1);
    rewrite (Pos.compare_antisym m1 m2).
  all: change (Pos.compare_cont Eq m1 m2) with (Pos.compare m1 m2);
    destruct (m1 ?= m2)%positive; reflexivity.
Qed.

Lemma SFcompare_trans x y z c :
  SFcompare x y = Some c -> SFcompare y z = Some c -> SFcompare x z = Some c.
Proof. by_cases3 x y z. Qed.

Lemma SFcompare_eq_l x y z c :
  SFcompare x y = Some Eq -> SFcompare y z = Some c -> SFcompare x z = Some c.
Proof. by_cases3 x y z. Qed.

Lemma SFcompare_eq_r x y z c :
  SFcompare x y = Some c -> SFcompare y z = Some Eq -> SFcompare x z = Some c.
Proof. by_cases3 x y z. Qed.

Lemma SFcompare_defined x y :
  SFcompare x x = Some Eq -> SFcompare y y = Some Eq ->
  exists c, SFcompare x y = Some c.
Proof.
  destruct x as [[]|[]| |[] m1 e1], y as [[]|[]| |[] m2 e2]; simpl; intros;
    try discriminate; eauto.
Qed.

Lemma SFcompare_self x c : SFcompare x x = Some c -> c = Eq.
Proof.
  destruct x as [[]|[]| |[] m e]; simpl; try congruence;
    rewrite Z.compare_refl;
    change (Pos.compare_cont Eq m m) with (Pos.compare m m);
    rewrite Pos.compare_refl; simpl; congruence.
Qed.

Lemma SFcompare_some_l x y c : SFcompare x y = Some c -> SFcompare x x = Some Eq.
Proof.
  destruct x as [[]|[]| |[] m e], y as [[]|[]| |[] ? ?]; simpl; try congruence;
    intros _; rewrite Z.compare_refl;
    change (Pos.compare_cont Eq m m) with (Pos.compare m m);
    rewrite Pos.compare_refl; reflexivity.
Qed.

Lemma SFcompare_some_r x y c : SFcompare x y = Some c -> SFcompare y y = Some Eq.
Proof.
  intros H. apply (SFcompare_some_l y x (CompOpp c)).
  rewrite SFcompare_antisym, H. reflexivity.
Qed.

(** The three comparisons in terms of the comparison of the decodings. *)
Lemma ltb_Lt x y :
  (x <? y)%float = true <-> SFcompare (Prim2SF x) (Prim2SF y) = Some Lt.
Proof.
  rewrite FloatAxioms.ltb_spec. unfold SFltb.
  destruct (SFcompare _ _) as [[]|]; split; congruence.
Qed.

Lemma eqb_Eq x y :
  (x =? y)%float = true <-> SFcompare (Prim2SF x) (Prim2SF y) = Some Eq.
Proof.
  rewrite FloatAxioms.eqb_spec. unfold SFeqb.
  destruct (SFcompare _ _) as [[]|]; split; congruence.
Qed.

Lemma leb_Lt_Eq x y :
  (x <=? y)%float = true <->
  SFcompare (Prim2SF x) (Prim2SF y) = Some Lt \/
  SFcompare (Prim2SF x) (Prim2SF y) = Some Eq.
Proof.
  rewrite FloatAxioms.leb_spec. unfold SFleb.
  destruct (SFcompare _ _) as [[]|]; split; intros; try tauto; try congruence;
    destruct H; congruence.
Qed.

Lemma not_nan_Eq x :
  not_nan x = true <-> SFcompare (Prim2SF x) (Prim2SF x) = Some Eq.
Proof. apply eqb_Eq. Qed.

Lemma ltb_irrefl x : (x <? x)%float = false.
Proof.
  apply not_true_is_false. rewrite ltb_Lt. intros H.
  apply SFcompare_self in H. discriminate.
Qed.

Lemma ltb_trans x y z :
  (x <? y)%float = true -> (y <? z)%float = true -> (x <? z)%float = true.
Proof. rewrite !ltb_Lt. apply SFcompare_trans. Qed.

Lemma leb_trans x y z :
  (x <=? y)%float = true -> (y <=? z)%float = true -> (x <=? z)%float = true.
Proof.
  rewrite !leb_Lt_Eq. intros [H1|H1] [H2|H2].
  - left. eapply SFcompare_trans; eassumption.
  - left. eapply SFcompare_eq_r; eassumption.
  - left. eapply SFcompare_eq_l; eassumption.
  - right. eapply SFcompare_trans; eassumption.
Qed.

Lemma ltb_leb_trans x y z :
  (x <? y)%float = true -> (y <=? z)%float = true -> (x <? z)%float = true.
Proof.
  rewrite leb_Lt_Eq, !ltb_Lt. intros H1 [H2|H2].
  - eapply SFcompare_trans; eassumption.
  - eapply SFcompare_eq_r; eassumption.
Qed.

Lemma leb_ltb_trans x y z :
  (x <=? y)%float = true -> (y <? z)%float = true -> (x <? z)%float = true.
Proof.
  rewrite leb_Lt_Eq, !ltb_Lt. intros [H1|H1] H2.
  - eapply SFcompare_trans; eassumption.
  - eapply SFcompare_eq_l; eassumption.
Qed.

Lemma ltb_leb x y : (x <? y)%float = true -> (x <=? y)%float = true.
Proof. rewrite ltb_Lt, leb_Lt_Eq. auto. Qed.

(** [x < y] excludes [y <= x], and [x <= y] excludes [y < x]. *)
Lemma ltb_not_leb x y : (x <? y)%float = true -> (y <=? x)%float = false.
Proof.
  intros H. apply not_true_is_false. intros H'.
  pose proof (ltb_leb_trans _ _ _ H H') as Hxx.
  rewrite ltb_irrefl in Hxx. discriminate.
Qed.

Lemma leb_not_ltb x y : (x <=? y)%float = true -> (y <? x)%float = false.
Proof.
  intros H. apply not_true_is_false. intros H'.
  pose proof (leb_ltb_trans _ _ _ H H') as Hxx.
  rewrite ltb_irrefl in Hxx. discriminate.
Qed.

(** Away from NaN the order is total. *)
Lemma not_ltb_leb x y :
  not_nan x = true -> not_nan y = true ->
  (x <? y)%float = false -> (y <=? x)%float = true.
Proof.
  rewrite !not_nan_Eq. intros Hx Hy Hlt.
  destruct (SFcompare_defined _ _ Hx Hy) as [c Hc].
  apply leb_Lt_Eq. rewrite SFcompare_antisym, Hc.
  destruct c; simpl; auto.
  apply ltb_Lt in Hc. congruence.
Qed.

Lemma leb_not_nan x y :
  (x <=? y)%float = true -> not_nan x = true /\ not_nan y = true.
Proof.
  rewrite leb_Lt_Eq, !not_nan_Eq.
  intros [H|H]; eauto using SFcompare_some_l, SFcompare_some_r.
Qed.

Lemma ltb_not_nan x y :
  (x <? y)%float = true -> not_nan x = true /\ not_nan y = true.
Proof.
  rewrite ltb_Lt, !not_nan_Eq. eauto using SFcompare_some_l, SFcompare_some_r.
Qed.

(** Every comparison with NaN is false. *)
Lemma nan_ltb_l x y : not_nan x = false -> (x <? y)%float = false.
Proof.
  intros Hx. apply not_true_is_false. intros H.
  apply ltb_not_nan in H. destruct H. congruence.
Qed.

Lemma nan_ltb_r x y : not_nan y = false -> (x <? y)%float = false.
Proof.
  intros Hy. apply not_true_is_false. intros H.
  apply ltb_not_nan in H. destruct H. congruence.
Qed.

Lemma nan_leb_l x y : not_nan x = false -> (x <=? y)%float = false.
Proof.
  intros Hx. apply not_true_is_false. intros H.
  apply leb_not_nan in H. destruct H. congruence.
Qed.

Lemma nan_leb_r x y : not_nan y = false -> (x <=? y)%float = false.
Proof.
  intros Hy. apply not_true_is_false. intros H.
  apply leb_not_nan in H. destruct H. congruence.
Qed.

(** Two floats equal (by [==]) to a third one are not ordered by [<]. *)
Lemma eqb_eqb_not_ltb x y k :
  (x =? k)%float = true -> (y =? k)%float = true -> (x <? y)%float = false.
Proof.
  rewrite !eqb_Eq. intros Hx Hy.
  apply not_true_is_false. rewrite ltb_Lt. intros Hlt.
  assert (Hky : SFcompare (Prim2SF k) (Prim2SF y) = Some Eq)
    by (rewrite SFcompare_antisym, Hy; reflexivity).
  pose proof (SFcompare_trans _ _ _ _ Hx Hky). congruence.
Qed.

End FloatOrder.

(** ** video_quality_bonus *)

Module VideoBonus.
Import FloatOrder.

Lemma Prim2SF_5 : Prim2SF 5 = S754_finite false 5629499534213120 (-50).
Proof. vm_compute. reflexivity. Qed.

Lemma Prim2SF_180 : Prim2SF 180 = S754_finite false 6333186975989760 (-45).
Proof. vm_compute. reflexivity. Qed.

Lemma Prim2SF_infinity : Prim2SF infinity = S754_infinity false.
Proof. vm_compute. reflexivity. Qed.

Lemma ltb_asym x y : (x <? y)%float = true -> (y <? x)%float = false.
Proof.
  intros H. apply not_true_is_false. intros H'.
  pose proof (ltb_trans _ _ _ H H') as Hxx.
  rewrite ltb_irrefl in Hxx. discriminate.
Qed.

(** The body of the function once the video flag and the duration are
    known. *)
Lemma bonus_unfold post d :
  has_video post = true -> video_duration_sec post = Some d ->
  video_quality_bonus post =
    if (15 <=? d)%float && (d <=? 60)%float then 0.5%float
    else if ((5 <=? d)%float && (d <? 15)%float)
            || ((60 <? d)%float && (d <=? 180)%float)
    then 0.3%float else 0.1%float.
Proof. unfold video_quality_bonus. intros -> ->. reflexivity. Qed.

(** Below 5 seconds no band test succeeds. *)
Lemma below_5 d :
  (d <? 5)%float = true ->
  (15 <=? d)%float = false /\ (5 <=? d)%float = false /\ (60 <? d)%float = false.
Proof.
  intros H. split; [|split].
  - apply ltb_not_leb. apply (ltb_trans d 5 15 H). reflexivity.
  - apply ltb_not_leb. exact H.
  - apply ltb_asym. apply (ltb_trans d 5 60 H). reflexivity.
Qed.

(** Above 180 seconds no band test succeeds. *)
Lemma above_180 d :
  (180 <? d)%float = true ->
  (d <=? 60)%float = false /\ (d <? 15)%float = false /\ (d <=? 180)%float = false.
Proof.
  intros H. split; [|split].
  - apply ltb_not_leb. apply (ltb_trans 60 180 d); [reflexivity|exact H].
  - apply ltb_asym. apply (ltb_trans 15 180 d); [reflexivity|exact H].
  - apply ltb_not_leb. exact H.
Qed.

Lemma bonus_outside post d :
  has_video post = true -> video_duration_sec post = Some d ->
  (d <? 5)%float = true \/ (180 <? d)%float = true ->
  video_quality_bonus post = 0.1%float.
Proof.
  intros Hv Hd Hout. rewrite (bonus_unfold post d Hv Hd).
  destruct Hout as [H|H].
  - destruct (below_5 d H) as (-> & -> & ->). reflexivity.
  - destruct (above_180 d H) as (-> & -> & ->).
    rewrite !andb_false_r. reflexivity.
Qed.

Lemma bonus_nan post d :
  has_video post = true -> video_duration_sec post = Some d ->
  not_nan d = false ->
  video_quality_bonus post = 0.1%float.
Proof.
  intros Hv Hd Hnan. rewrite (bonus_unfold post d Hv Hd).
  rewrite (nan_leb_r 15 d Hnan), (nan_leb_r 5 d Hnan), (nan_ltb_r 60 d Hnan).
  reflexivity.
Qed.

Lemma bonus_optimal post d :
  has_video post = true -> video_duration_sec post = Some d ->
  (15 <=? d)%float = true -> (d <=? 60)%float = true ->
  video_quality_bonus post = 0.5%float.
Proof.
  intros Hv Hd H1 H2. rewrite (bonus_unfold post d Hv Hd), H1, H2. reflexivity.
Qed.

Lemma bonus_good post d :
  has_video post = true -> video_duration_sec post = Some d ->
  ((5 <=? d)%float = true /\ (d <? 15)%float = true) \/
  ((60 <? d)%float = true /\ (d <=? 180)%float = true) ->
  video_quality_bonus post = 0.3%float.
Proof.
  intros Hv Hd Hband. rewrite (bonus_unfold post d Hv Hd).
  destruct Hband as [[H1 H2]|[H1 H2]].
  - rewrite (ltb_not_leb _ _ H2), H1, H2. reflexivity.
  - rewrite (ltb_not_leb _ _ H1), andb_false_r, H1, H2, orb_true_r.
    reflexivity.
Qed.

Lemma is_infinity_decode d :
  is_infinity d = true -> exists s, Prim2SF d = S754_infinity s.
Proof.
  unfold is_infinity. intros H. apply eqb_Eq in H.
  rewrite abs_spec, Prim2SF_infinity in H.
  destruct (Prim2SF d) as [s|s| |s m e]; try discriminate H; eauto.
Qed.

Lemma is_infinity_outside d :
  is_infinity d = true -> (d <? 5)%float = true \/ (180 <? d)%float = true.
Proof.
  intros H. destruct (is_infinity_decode d H) as [[] Hs]; [left|right];
    apply ltb_Lt; rewrite Hs; [rewrite Prim2SF_5|rewrite Prim2SF_180];
    reflexivity.
Qed.

End VideoBonus.

(** C5.  [video_quality_bonus] returns 0.0 for an item without video or
    without duration (whatever the other field holds), 0.5 when
    15 <= d <= 60, 0.3 when 5 <= d < 15 or 60 < d <= 180, and 0.1 for every
    other duration, in particular when d < 5 or d > 180; so 14.999 gives 0.3,
    15.0 and 60.0 give 0.5, 60.001 gives 0.3, 5 and 180 give 0.3, 4.999 and
    181 give 0.1. *)
Theorem video_quality_bonus_bands (post : Post) :
  (has_video post = false -> video_quality_bonus post = 0.0%float) /\
  (video_duration_sec post = None -> video_quality_bonus post = 0.0%float) /\
  (forall d : float,
     has_video post = true -> video_duration_sec post = Some d ->
     ((15 <=? d)%float = true /\ (d <=? 60)%float = true ->
        video_quality_bonus post = 0.5%float) /\
     (((5 <=? d)%float = true /\ (d <? 15)%float = true) \/
      ((60 <? d)%float = true /\ (d <=? 180)%float = true) ->
        video_quality_bonus post = 0.3%float) /\
     ((d <? 5)%float = true \/ (180 <? d)%float = true ->
        video_quality_bonus post = 0.1%float) /\
     ((15 <=? d)%float && (d <=? 60)%float = false ->
      ((5 <=? d)%float && (d <? 15)%float)
        || ((60 <? d)%float && (d <=? 180)%float) = false ->
        video_quality_bonus post = 0.1%float)) /\
  video_quality_bonus (video_post 14.999) = 0.3%float /\
  video_quality_bonus (video_post 15.0) = 0.5%float /\
  video_quality_bonus (video_post 60.0) = 0.5%float /\
  video_quality_bonus (video_post 60.001) = 0.3%float /\
  video_quality_bonus (video_post 5) = 0.3%float /\
  video_quality_bonus (video_post 180) = 0.3%float /\
  video_quality_bonus (video_post 4.999) = 0.1%float /\
  video_quality_bonus (video_post 181) = 0.1%float /\
  (forall duration, video_quality_bonus (no_video_post duration) = 0.0%float).
Proof.
  split; [|split; [|split]].
  - unfold video_quality_bonus. intros ->. reflexivity.
  - unfold video_quality_bonus. intros ->. destruct (has_video post); reflexivity.
  - intros d Hv Hd. split; [|split; [|split]].
    + intros [H1 H2]. eapply VideoBonus.bonus_optimal; eassumption.
    + intros H. eapply VideoBonus.bonus_good; eassumption.
    + intros H. eapply VideoBonus.bonus_outside; eassumption.
    + intros H1 H2. rewrite (VideoBonus.bonus_unfold post d Hv Hd), H1, H2.
      reflexivity.
  - repeat split; try (vm_compute; reflexivity).
Qed.

(** The bands of C5 at the demo's 45-second video. *)
Lemma video_quality_bonus_bands_witness :
  video_quality_bonus (video_post 45) = 0.5%float.
Proof.
  refine (proj1 (proj1 (proj2 (proj2 (video_quality_bonus_bands (video_post 45))))
                   45%float _ _) _).
  - reflexivity.
  - reflexivity.
  - split; reflexivity.
Defined.

(** C6, as the claim states it, fails: a video of duration -1 gets the
    0.1 of the last branch, not the 0.0 of an unknown duration. *)
Lemma video_quality_bonus_negative_duration :
  video_quality_bonus (video_post (-1)) = 0.1%float /\
  video_quality_bonus (video_post (-1)) <> 0.0%float.
Proof.
  split; [vm_compute; reflexivity|].
  intros H. apply (f_equal (fun x => PrimFloat.eqb x 0.1)) in H.
  vm_compute in H. discriminate H.
Qed.

(** C6, amended.  For an item flagged has-video whose duration is negative,
    NaN or infinite, [video_quality_bonus] does not raise and returns the 0.1
    of its last branch: only a missing duration counts as unknown. *)
Theorem video_quality_bonus_malformed_duration (post : Post) (d : float) :
  has_video post = true -> video_duration_sec post = Some d ->
  (d <? 0)%float = true \/ is_nan d = true \/ is_infinity d = true ->
  video_quality_bonus post = 0.1%float.
Proof.
  intros Hv Hd [Hneg|[Hnan|Hinf]].
  - eapply VideoBonus.bonus_outside; try eassumption.
    left. apply (FloatOrder.ltb_trans d 0 5 Hneg). reflexivity.
  - eapply VideoBonus.bonus_nan; try eassumption.
    unfold is_nan in Hnan. unfold not_nan.
    destruct (d =? d)%float; [discriminate Hnan|reflexivity].
  - eapply VideoBonus.bonus_outside; try eassumption.
    apply VideoBonus.is_infinity_outside. exact Hinf.
Qed.

Lemma video_quality_bonus_malformed_duration_witness :
  video_quality_bonus (video_post neg_infinity) = 0.1%float.
Proof.
  apply (video_quality_bonus_malformed_duration (video_post neg_infinity)
           neg_infinity).
  - reflexivity.
  - reflexivity.
  - right. right. vm_compute. reflexivity.
Defined.

(** ** compute_weighted_score *)

Lemma weighted_score_loop_spec weights p score :
  weighted_score_loop weights p score =
    match find (fun kv => negb (is_field p kv.1)) weights with
    | Some kv => Raise (AttributeError kv.1)
    | None =>
        Ok (fold_left (fun score kv => (score + kv.2 * value_of p kv.1)%float)
              weights score)
    end.
Proof.
  revert score. induction weights as [|[action weight] items IH]; intros score.
  - reflexivity.
  - assert (Hfield : is_field p action
                     = bool_decide (is_Some (assoc action (fields p))))
      by reflexivity.
    assert (Hvalue : value_of p action
                     = default 0.0%float (assoc action (fields p)))
      by reflexivity.
    cbn [weighted_score_loop find fold_left fst snd].
    unfold getattr. rewrite Hfield.
    destruct (assoc action (fields p)) as [v|].
    + rewrite bool_decide_eq_true_2 by eauto.
      cbn [negb mbind result_bind]. rewrite IH, Hvalue. reflexivity.
    + rewrite bool_decide_eq_false_2 by (intros [? ?]; discriminate).
      reflexivity.
Qed.

Lemma compute_weighted_score_sum p :
  compute_weighted_score p = Ok (weighted_sum p).
Proof. reflexivity. Qed.

(** C4, as the claim states it, fails: with a table that has no weight for
    "report", a prediction the vector does carry, scoring returns a score. *)
Lemma scoring_without_report_weight :
  assoc "report" weights_without_report = None /\
  is_field half_predictions "report" = true /\
  exists score,
    compute_weighted_score_with weights_without_report half_predictions
    = Ok score.
Proof.
  split; [vm_compute; reflexivity|]. split; [vm_compute; reflexivity|].
  eexists. vm_compute. reflexivity.
Qed.

(** C4, amended.  The table ACTION_WEIGHTS holds exactly one weight, a
    finite one, for each of the fifteen predictions and for nothing else, so
    with it scoring never raises and returns the sum of the fifteen products.
    Scoring walks the entries of the table, not the predictions: with any
    table whose entries all name predictions it does not raise either, even
    if some prediction has no weight, and returns the sum of the products of
    the entries it has, in their order. *)
Theorem weight_table_coverage (p : EngagementPredictions) :
  ACTION_WEIGHTS.*1 = (fields p).*1 /\
  NoDup ACTION_WEIGHTS.*1 /\
  Forall (fun kv => is_finite kv.2 = true) ACTION_WEIGHTS /\
  compute_weighted_score p = Ok (weighted_sum p) /\
  (forall weights,
     Forall (fun kv => is_field p kv.1 = true) weights ->
     compute_weighted_score_with weights p
     = Ok (fold_left
             (fun score kv => (score + kv.2 * value_of p kv.1)%float)
             weights 0.0%float)).
Proof.
  split; [reflexivity|]. split; [|split; [|split]].
  - apply (bool_decide_unpack _). vm_compute. reflexivity.
  - unfold ACTION_WEIGHTS. repeat constructor.
  - apply compute_weighted_score_sum.
  - intros weights Hfields. unfold compute_weighted_score_with.
    rewrite weighted_score_loop_spec.
    replace (find (fun kv => negb (is_field p kv.1)) weights)
      with (@None (string * float)); [reflexivity|].
    induction Hfields as [|kv weights Hkv _ IH]; [reflexivity|].
    cbn [find]. rewrite Hkv. exact IH.
Qed.

(** The table without "report" names predictions only: scoring returns
    the sum of its fourteen products. *)
Lemma weight_table_coverage_witness :
  compute_weighted_score_with weights_without_report half_predictions
  = Ok (fold_left
          (fun score kv =>
             (score + kv.2 * value_of half_predictions kv.1)%float)
          weights_without_report 0.0%float).
Proof.
  apply (proj2 (proj2 (proj2 (proj2
           (weight_table_coverage half_predictions))))).
  apply (bool_decide_unpack _). vm_compute. reflexivity.
Defined.

(** ** apply_author_diversity_decay *)

Section Decay.

Variable float_pow : float -> nat -> float.

Lemma count_author_app l1 l2 a :
  count_author (l1 ++ l2) a = count_author l1 a + count_author l2 a.
Proof. unfold count_author. rewrite filter_app, length_app. reflexivity. Qed.

Lemma count_author_singleton (x : Post * float) a :
  count_author [x] a = if decide (author_id x.1 = a) then 1 else 0.
Proof.
  unfold count_author. rewrite filter_cons, filter_nil.
  destruct (decide (author_id x.1 = a)); reflexivity.
Qed.

(** The loop invariant: once the items of [done] are behind, the counter of
    every author is the number of its items in [done] (an author without
    item has no entry, which [get] reads as 0). *)
Lemma decay_loop factor todo :
  forall (done : list (Post * float)) (author_counts : gmap string nat)
         (adjusted_results : list (Post * float)),
    (forall a, default 0 (author_counts !! a) = count_author done a) ->
    (fold_left (decay_step float_pow factor) todo
       (author_counts, adjusted_results)).2
    = adjusted_results ++
      imap (fun k x =>
              (x.1, (x.2 * float_pow factor
                             (count_author (done ++ take k todo)
                                (author_id x.1)))%float)) todo.
Proof.
  induction todo as [|[post score] todo IH];
    intros done author_counts adjusted_results Hcounts.
  - cbn. rewrite app_nil_r. reflexivity.
  - cbn [fold_left decay_step imap fst snd].
    rewrite (IH (done ++ [(post, score)])).
    + rewrite <- app_assoc. cbn [app take]. rewrite app_nil_r, Hcounts.
      f_equal. f_equal. apply imap_ext. intros k x _. cbn.
      rewrite <- app_assoc. reflexivity.
    + intros a. rewrite count_author_app, count_author_singleton. cbn [fst].
      destruct (decide (author_id post = a)) as [<-|Hne].
      * rewrite lookup_insert_eq. cbn. rewrite Hcounts. reflexivity.
      * rewrite lookup_insert_ne by exact Hne. rewrite Hcounts. lia.
Qed.

Lemma decay_refines_spec l factor :
  apply_author_diversity_decay float_pow l factor
  = decay_spec float_pow l factor.
Proof.
  unfold apply_author_diversity_decay, decay_spec.
  rewrite (decay_loop factor l []).
  - reflexivity.
  - intros a. rewrite lookup_empty. reflexivity.
Qed.

Lemma decay_length l factor :
  length (apply_author_diversity_decay float_pow l factor) = length l.
Proof. rewrite decay_refines_spec. apply length_imap. Qed.

Lemma imap_rescore_items (f : nat -> Post * float -> float) l :
  (imap (fun k x => (x.1, f k x)) l).*1 = l.*1.
Proof.
  revert f. induction l as [|x l IH]; intros f; [reflexivity|].
  cbn. f_equal. apply (IH (fun k => f (S k))).
Qed.

Lemma decay_items l factor :
  (apply_author_diversity_decay float_pow l factor).*1 = l.*1.
Proof.
  rewrite decay_refines_spec. unfold decay_spec.
  apply (imap_rescore_items
           (fun k x => (x.2 * float_pow factor
                                (count_author (take k l) (author_id x.1)))%float)).
Qed.

(** C1.  For every sequence of (item, score) pairs and every factor of
    absolute value at most 1 (the factors of the contract, (0, 1], among
    them), [apply_author_diversity_decay] returns, in one left-to-right
    pass, the sequence of the same length holding the same items at the same
    positions, the score at each position multiplied by the factor raised to
    the number of strictly earlier pairs of the same author (the exponent is
    0 at an author's first occurrence). *)
Theorem apply_author_diversity_decay_correct
    (l : list (Post * float)) (factor : float) :
  unit_factor factor = true ->
  apply_author_diversity_decay float_pow l factor
  = imap (fun k x =>
            (x.1, (x.2 * float_pow factor
                           (count_author (take k l) (author_id x.1)))%float)) l
  /\ length (apply_author_diversity_decay float_pow l factor) = length l
  /\ (apply_author_diversity_decay float_pow l factor).*1 = l.*1.
Proof.
  intros _. split; [apply decay_refines_spec|].
  split; [apply decay_length|apply decay_items].
Qed.

End Decay.

(** ** The sort *)

Section Sort.

Context {A : Type} (key : A -> float).

Lemma insert_desc_perm x l : insert_desc key x l ≡ₚ x :: l.
Proof.
  induction l as [|y l IH]; cbn; [reflexivity|].
  destruct (key x <? key y)%float; [|reflexivity].
  rewrite IH. apply Permutation_swap.
Qed.

Lemma sort_reverse_perm l : sort_reverse key l ≡ₚ l.
Proof.
  induction l as [|x l IH]; cbn; [reflexivity|].
  rewrite insert_desc_perm. f_equiv. exact IH.
Qed.


(** Stability: the elements whose key equals [k] come out in the order in
    which they went in. *)
Lemma insert_desc_tied k x l :
  filter (fun y => (key y =? k)%float = true) (insert_desc key x l)
  = filter (fun y => (key y =? k)%float = true) (x :: l).
Proof.
  induction l as [|y l IH]; cbn [insert_desc]; [reflexivity|].
  destruct (key x <? key y)%float eqn:Hlt; [|reflexivity].
  rewrite filter_cons, IH, !filter_cons.
  destruct (decide ((key y =? k)%float = true)) as [Hy|Hy];
    destruct (decide ((key x =? k)%float = true)) as [Hx|Hx];
    try reflexivity.
  rewrite (FloatOrder.eqb_eqb_not_ltb _ _ _ Hx Hy) in Hlt. discriminate.
Qed.

Lemma sort_reverse_stable k l :
  filter (fun y => (key y =? k)%float = true) (sort_reverse key l)
  = filter (fun y => (key y =? k)%float = true) l.
Proof.
  induction l as [|x l IH]; [reflexivity|].
  cbn [sort_reverse foldr]. rewrite insert_desc_tied, !filter_cons.
  fold (sort_reverse key l). rewrite IH. reflexivity.
Qed.

(** Away from NaN the result is in descending order. *)
Lemma insert_desc_sorted x l :
  not_nan (key x) = true ->
  Forall (fun y => not_nan (key y) = true) l ->
  StronglySorted (fun a b => (key b <=? key a)%float = true) l ->
  StronglySorted (fun a b => (key b <=? key a)%float = true)
    (insert_desc key x l).
Proof.
  intros Hx Hl Hs. induction Hs as [|y l Hs IH Hy]; cbn [insert_desc].
  - repeat constructor.
  - apply Forall_cons in Hl as [Hny Hl].
    destruct (key x <? key y)%float eqn:Hlt.
    + constructor; [apply IH; exact Hl|].
      rewrite insert_desc_perm. constructor; [|exact Hy].
      apply FloatOrder.ltb_leb. exact Hlt.
    + assert (Hyx : (key y <=? key x)%float = true)
        by (apply FloatOrder.not_ltb_leb; assumption).
      constructor; [constructor; assumption|].
      constructor; [exact Hyx|].
      eapply Forall_impl; [exact Hy|]. cbn. intros z Hz.
      eapply FloatOrder.leb_trans; eassumption.
Qed.

Lemma sort_reverse_sorted l :
  Forall (fun y => not_nan (key y) = true) l ->
  StronglySorted (fun a b => (key b <=? key a)%float = true)
    (sort_reverse key l).
Proof.
  induction l as [|x l IH]; intros Hl; cbn [sort_reverse foldr].
  - constructor.
  - apply Forall_cons in Hl as [Hx Hl]. fold (sort_reverse key l).
    apply insert_desc_sorted; [exact Hx| |apply IH; exact Hl].
    rewrite sort_reverse_perm. exact Hl.
Qed.

(** A stable sort into descending order is determined by its input: any
    list with the same tied groups as [l] that is in descending order is the
    list [sort_reverse] returns, as long as no key is NaN. *)
Lemma tied_groups_nil l :
  Forall (fun y => not_nan (key y) = true) l ->
  (forall k, filter (fun y => (key y =? k)%float = true) l = []) ->
  l = [].
Proof.
  intros Hnan Hk. destruct l as [|y l]; [reflexivity|].
  apply Forall_cons in Hnan as [Hy _]. specialize (Hk (key y)).
  rewrite filter_cons in Hk.
  destruct (decide ((key y =? key y)%float = true)) as [_|Hne];
    [discriminate Hk|]. contradiction.
Qed.

Lemma descending_stable_unique l1 :
  forall l2,
    Forall (fun y => not_nan (key y) = true) l1 ->
    Forall (fun y => not_nan (key y) = true) l2 ->
    StronglySorted (fun a b => (key b <=? key a)%float = true) l1 ->
    StronglySorted (fun a b => (key b <=? key a)%float = true) l2 ->
    (forall k, filter (fun y => (key y =? k)%float = true) l1
               = filter (fun y => (key y =? k)%float = true) l2) ->
    l1 = l2.
Proof.
  induction l1 as [|x l1 IH]; intros l2 Hn1 Hn2 Hs1 Hs2 Htied.
  - symmetry. apply tied_groups_nil; [exact Hn2|].
    intros k. rewrite <- Htied. reflexivity.
  - destruct l2 as [|y l2].
    { apply (tied_groups_nil (x :: l1) Hn1). intros k. rewrite Htied.
      reflexivity. }
    apply Forall_cons in Hn1 as [Hx Hn1]. apply Forall_cons in Hn2 as [Hy Hn2].
    apply StronglySorted_inv in Hs1 as [Hs1 Hx1].
    apply StronglySorted_inv in Hs2 as [Hs2 Hy2].
    assert (Hxy : (key x <=? key y)%float = true).
    { pose proof (Htied (key x)) as H. rewrite !filter_cons in H.
      destruct (decide ((key x =? key x)%float = true)) as [_|Hne];
        [|contradiction].
      destruct (decide ((key y =? key x)%float = true)) as [Heq|_].
      - apply FloatOrder.leb_Lt_Eq. right.
        apply FloatOrder.eqb_Eq in Heq.
        rewrite FloatOrder.SFcompare_antisym, Heq. reflexivity.
      - assert (Hin : x ∈ filter (fun y => (key y =? key x)%float = true) l2)
          by (rewrite <- H; left).
        apply list_elem_of_filter in Hin as [_ Hin].
        rewrite Forall_forall in Hy2. apply Hy2. exact Hin. }
    assert (Hyx : (key y <=? key x)%float = true).
    { pose proof (Htied (key y)) as H. rewrite !filter_cons in H.
      destruct (decide ((key y =? key y)%float = true)) as [_|Hne];
        [|contradiction].
      destruct (decide ((key x =? key y)%float = true)) as [Heq|_].
      - apply FloatOrder.leb_Lt_Eq. right.
        apply FloatOrder.eqb_Eq in Heq.
        rewrite FloatOrder.SFcompare_antisym, Heq. reflexivity.
      - assert (Hin : y ∈ filter (fun z => (key z =? key y)%float = true) l1)
          by (rewrite H; left).
        apply list_elem_of_filter in Hin as [_ Hin].
        rewrite Forall_forall in Hx1. apply Hx1. exact Hin. }
    assert (Heq : (key y =? key x)%float = true).
    { apply FloatOrder.eqb_Eq.
      apply FloatOrder.leb_Lt_Eq in Hxy as [Hlt|Heq].
      - apply FloatOrder.ltb_Lt in Hlt.
        rewrite (FloatOrder.leb_not_ltb _ _ Hyx) in Hlt. discriminate.
      - rewrite FloatOrder.SFcompare_antisym, Heq. reflexivity. }
    assert (Hhead : x = y).
    { pose proof (Htied (key x)) as H. rewrite !filter_cons in H.
      destruct (decide ((key x =? key x)%float = true)); [|contradiction].
      destruct (decide ((key y =? key x)%float = true)); [|contradiction].
      congruence. }
    subst y. f_equal. apply IH; try assumption.
    intros k. specialize (Htied k). rewrite !filter_cons in Htied.
    destruct (decide ((key x =? k)%float = true)); congruence.
Qed.

Lemma sort_reverse_unique l l' :
  Forall (fun y => not_nan (key y) = true) l ->
  l' ≡ₚ l ->
  StronglySorted (fun a b => (key b <=? key a)%float = true) l' ->
  (forall k, filter (fun y => (key y =? k)%float = true) l'
             = filter (fun y => (key y =? k)%float = true) l) ->
  l' = sort_reverse key l.
Proof.
  intros Hnan Hperm Hsorted Htied.
  apply descending_stable_unique.
  - rewrite Hperm. exact Hnan.
  - rewrite sort_reverse_perm. exact Hnan.
  - exact Hsorted.
  - apply sort_reverse_sorted. exact Hnan.
  - intros k. rewrite sort_reverse_stable. apply Htied.
Qed.

End Sort.

(** ** rank_posts *)

Section Ranking.

Variable rng : Type.
Variable float_pow : float -> nat -> float.
Variable predictor : Post -> bool -> state rng EngagementPredictions.
Variable user_following : gset string.

Lemma predict_all_cons post posts st :
  predict_all rng predictor user_following (post :: posts) st
  = let '(predictions, st1) :=
      predictor post (bool_decide (author_id post ∈ user_following)) st in
    let '(rest, st2) := predict_all rng predictor user_following posts st1 in
    (predictions :: rest, st2).
Proof.
  cbn [predict_all]. unfold mbind, state_bind, mret, state_ret.
  destruct (predictor _ _ st) as [predictions st1].
  destruct (predict_all _ _ _ posts st1) as [rest st2]. reflexivity.
Qed.

Lemma predict_all_length posts st :
  length (predict_all rng predictor user_following posts st).1 = length posts.
Proof.
  revert st. induction posts as [|post posts IH]; intros st; [reflexivity|].
  rewrite predict_all_cons.
  destruct (predictor _ _ st) as [predictions st1].
  specialize (IH st1).
  destruct (predict_all _ _ _ posts st1) as [rest st2].
  cbn in *. rewrite IH. reflexivity.
Qed.

(** Steps 1 to 3: the loop never raises, calls the predictor once per item
    in input order and appends one triple per item. *)
Lemma score_loop_spec posts :
  forall scored_posts st,
    score_loop rng predictor user_following posts scored_posts st
    = let '(preds, st') :=
        predict_all rng predictor user_following posts st in
      (Ok (scored_posts ++ scored_in_input_order posts preds), st').
Proof.
  induction posts as [|post posts IH]; intros scored_posts st.
  - cbn. rewrite app_nil_r. reflexivity.
  - rewrite predict_all_cons. cbn [score_loop].
    unfold mbind at 1, prog_bind, lift_state.
    destruct (predictor _ _ st) as [predictions st1].
    unfold mbind at 1, prog_bind, lift_result.
    rewrite compute_weighted_score_sum, IH.
    destruct (predict_all _ _ _ posts st1) as [rest st2].
    rewrite <- app_assoc. reflexivity.
Qed.

(** The rebuild never indexes out of range when the decayed list is no
    longer than the ranking it is aligned with. *)
Lemma rebuild_loop_spec (scored_posts : list scored) adjusted :
  forall k final_results,
    k + length adjusted <= length scored_posts ->
    rebuild_loop scored_posts (imap (fun i x => (k + i, x)) adjusted)
      final_results
    = Ok (final_results ++
          zip_with (fun (ps : Post * float) (x : scored) => (ps.1, ps.2, x.2))
            adjusted (drop k scored_posts)).
Proof.
  unfold scored in *.
  induction adjusted as [|[post adjusted_score] adjusted IH];
    intros k final_results Hlen.
  - cbn. rewrite app_nil_r. reflexivity.
  - cbn [imap rebuild_loop length] in *.
    rewrite Nat.add_0_r.
    destruct (lookup_lt_is_Some_2 scored_posts k ltac:(lia)) as [x Hx].
    unfold scored in *. rewrite Hx. destruct x as [[p0 s0] predictions].
    rewrite (drop_S _ _ _ Hx). cbn [zip_with fst snd].
    rewrite (imap_ext _ (fun i x => (S k + i, x))).
    + rewrite IH by lia. rewrite <- app_assoc. reflexivity.
    + intros i x _. cbn. f_equal. lia.
Qed.

(** The pipeline, step by step. *)
Lemma rank_posts_with_pipeline posts st :
  rank_posts_with rng float_pow predictor user_following posts st
  = let '(preds, st') := predict_all rng predictor user_following posts st in
    (Ok (pipeline float_pow posts preds), st').
Proof.
  unfold rank_posts_with. unfold mbind at 1, prog_bind.
  rewrite score_loop_spec.
  destruct (predict_all _ _ _ posts st) as [preds st'].
  cbn [app]. unfold mbind at 1, prog_bind, lift_result, enumerate.
  rewrite (rebuild_loop_spec _ _ 0 []).
  - cbn [drop app]. reflexivity.
  - rewrite decay_length, length_fmap. cbn. lia.
Qed.

End Ranking.

Section PipelineFacts.

Variable float_pow : float -> nat -> float.

Lemma items_item_predictions (l : list scored) :
  items l = (item_predictions l).*1.
Proof.
  unfold items, item_predictions. rewrite <- list_fmap_compose. reflexivity.
Qed.

Lemma scored_in_input_order_predictions posts preds :
  item_predictions (scored_in_input_order posts preds) = zip posts preds.
Proof.
  revert preds. induction posts as [|post posts IH]; intros [|pr preds];
    try reflexivity.
  cbn. f_equal. apply IH.
Qed.

(** Putting the decayed pairs back on the ranking, position by position,
    leaves every item with the predictions it had. *)
Lemma realign_item_predictions (adjusted : list (Post * float))
    (ranked : list scored) :
  adjusted.*1 = items ranked ->
  item_predictions
    (zip_with (fun (ps : Post * float) (x : scored) => (ps.1, ps.2, x.2))
       adjusted ranked)
  = item_predictions ranked.
Proof.
  revert adjusted. induction ranked as [|x ranked IH];
    intros [|ps adjusted] Hitems; try discriminate Hitems; try reflexivity.
  cbn in Hitems. injection Hitems as Hhead Htail.
  cbn. rewrite Hhead. f_equal. apply IH. exact Htail.
Qed.

Lemma decayed_item_predictions posts preds :
  item_predictions (decayed float_pow posts preds)
  = item_predictions (ranked_pre_decay posts preds).
Proof.
  unfold decayed. apply realign_item_predictions.
  rewrite decay_items. unfold items. rewrite <- list_fmap_compose.
  reflexivity.
Qed.


Lemma pipeline_item_predictions posts preds :
  item_predictions (pipeline float_pow posts preds) ≡ₚ zip posts preds.
Proof.
  unfold pipeline, item_predictions at 1.
  rewrite sort_reverse_perm. fold (item_predictions (decayed float_pow posts preds)).
  rewrite decayed_item_predictions. unfold ranked_pre_decay, item_predictions at 1.
  rewrite sort_reverse_perm.
  fold (item_predictions (scored_in_input_order posts preds)).
  rewrite scored_in_input_order_predictions. reflexivity.
Qed.

Lemma pipeline_items posts preds :
  length preds = length posts ->
  items (pipeline float_pow posts preds) ≡ₚ posts.
Proof.
  intros Hlen. rewrite items_item_predictions, pipeline_item_predictions.
  rewrite fst_zip by lia. reflexivity.
Qed.

Lemma pipeline_length posts preds :
  length preds = length posts ->
  length (pipeline float_pow posts preds) = length posts.
Proof.
  intros Hlen. rewrite <- (Permutation_length (pipeline_items posts preds Hlen)).
  unfold items. rewrite length_fmap. reflexivity.
Qed.

End PipelineFacts.

Section RankingClaims.

Variable rng : Type.
Variable float_pow : float -> nat -> float.
Variable predictor : Post -> bool -> state rng EngagementPredictions.
Variable user_following : gset string.


(** C3.  Whatever the input list, [rank_posts] returns a list whose items
    are a permutation of the input items, of the same length; the empty
    list gives the empty list. *)
Theorem rank_posts_conservation (posts : list Post) (st : rng) :
  (exists out,
     (rank_posts_with rng float_pow predictor user_following posts st).1
     = Ok out
     /\ items out ≡ₚ posts
     /\ length out = length posts)
  /\ (rank_posts_with rng float_pow predictor user_following [] st).1 = Ok [].
Proof.
  split; [|reflexivity].
  rewrite rank_posts_with_pipeline.
  pose proof (predict_all_length rng predictor user_following posts st)
    as Hlen.
  destruct (predict_all rng predictor user_following posts st)
    as [preds st'].
  cbn in Hlen. eexists. split; [reflexivity|].
  split; [apply pipeline_items|apply pipeline_length]; exact Hlen.
Qed.

(** C10.  Every triple of the result pairs an item with the predictions
    the predictor returned for that item in step 1: the decay leaves the
    pairs at their positions, so the rebuild by index gives each item its
    own predictions and never indexes out of range. *)
Theorem rank_posts_keeps_predictions (posts : list Post) (st : rng) :
  let preds := (predict_all rng predictor user_following posts st).1 in
  exists out,
    (rank_posts_with rng float_pow predictor user_following posts st).1
    = Ok out
    /\ out = sort_reverse score_of (decayed float_pow posts preds)
    /\ item_predictions (decayed float_pow posts preds)
       = item_predictions (ranked_pre_decay posts preds)
    /\ item_predictions out ≡ₚ zip posts preds.
Proof.
  cbn zeta. rewrite rank_posts_with_pipeline.
  destruct (predict_all rng predictor user_following posts st)
    as [preds st'].
  eexists. split; [reflexivity|]. split; [reflexivity|].
  split; [apply decayed_item_predictions|apply pipeline_item_predictions].
Qed.

(** C9, amended.  Both sorts are stable with respect to the sequence they
    receive.  The first sort receives the scored items in input order, so
    items of equal pre-decay score stay in input order.  The final sort
    receives the decayed items in the order of the pre-decay ranking, so
    items of equal decayed score stay in the order of that ranking. *)
Theorem rank_posts_sorts_stable (posts : list Post) (st : rng) (k : float) :
  let preds := (predict_all rng predictor user_following posts st).1 in
  items (scored_in_input_order posts preds) = posts
  /\ tied k (ranked_pre_decay posts preds)
     = tied k (scored_in_input_order posts preds)
  /\ items (decayed float_pow posts preds)
     = items (ranked_pre_decay posts preds)
  /\ (rank_posts_with rng float_pow predictor user_following posts st).1
     = Ok (pipeline float_pow posts preds)
  /\ tied k (pipeline float_pow posts preds)
     = tied k (decayed float_pow posts preds).
Proof.
  cbn zeta. rewrite rank_posts_with_pipeline.
  pose proof (predict_all_length rng predictor user_following posts st)
    as Hlen.
  destruct (predict_all rng predictor user_following posts st)
    as [preds st'].
  cbn in Hlen. cbn [fst].
  split.
  { rewrite items_item_predictions, scored_in_input_order_predictions.
    apply fst_zip. lia. }
  split; [apply sort_reverse_stable|].
  split.
  { rewrite !items_item_predictions, decayed_item_predictions. reflexivity. }
  split; [reflexivity|apply sort_reverse_stable].
Qed.

(** C8.  With a predictor stub whose answer does not depend on the state
    of the generator, the result of [rank_posts] (the sequence and its
    scores) is the same whatever state it is called in. *)
Theorem rank_posts_deterministic :
  (forall post follows st1 st2,
     (predictor post follows st1).1 = (predictor post follows st2).1) ->
  forall posts st1 st2,
    (rank_posts_with rng float_pow predictor user_following posts st1).1
    = (rank_posts_with rng float_pow predictor user_following posts st2).1.
Proof.
  intros Hstub posts st1 st2. rewrite !rank_posts_with_pipeline.
  assert (Hpreds :
            (predict_all rng predictor user_following posts st1).1
            = (predict_all rng predictor user_following posts st2).1).
  { revert st1 st2. induction posts as [|post posts IH]; intros st1 st2;
      [reflexivity|].
    rewrite !predict_all_cons.
    specialize (Hstub post (bool_decide (author_id post ∈ user_following))
                  st1 st2).
    destruct (predictor post _ st1) as [p1 st1'].
    destruct (predictor post _ st2) as [p2 st2'].
    specialize (IH st1' st2').
    destruct (predict_all rng predictor user_following posts st1').
    destruct (predict_all rng predictor user_following posts st2').
    cbn in *. congruence. }
  destruct (predict_all rng predictor user_following posts st1).
  destruct (predict_all rng predictor user_following posts st2).
  cbn in *. congruence.
Qed.

(** C7, amended.  [apply_author_diversity_decay] does not validate its
    factor: a factor outside (0, 1] is applied like any other.  For every
    factor of absolute value at most 1, zero and the negative ones included,
    and for every factor whatsoever on a batch in which no author has more
    than two items, the score at each position is multiplied by the factor
    raised to the number of earlier items of the same author.  [rank_posts]
    cannot be given a factor: it always runs the decay with the default 0.7,
    which lies in (0, 1]. *)
Theorem decay_factor_not_validated
    (l : list (Post * float)) (factor : float) (posts : list Post) (st : rng) :
  (unit_factor factor = true \/ at_most_two_per_author l ->
   apply_author_diversity_decay float_pow l factor
   = decay_spec float_pow l factor
   /\ length (apply_author_diversity_decay float_pow l factor) = length l)
  /\ (rank_posts_with rng float_pow predictor user_following posts st).1
     = Ok (sort_reverse score_of
             (zip_with
                (fun (ps : Post * float) (x : scored) => (ps.1, ps.2, x.2))
                (apply_author_diversity_decay float_pow
                   ((fun x : scored => (x.1.1, x.1.2)) <$>
                    ranked_pre_decay posts
                      (predict_all rng predictor user_following posts st).1)
                   default_decay_factor)
                (ranked_pre_decay posts
                   (predict_all rng predictor user_following posts st).1)))
  /\ valid_decay_factor default_decay_factor = true.
Proof.
  split; [intros _; split; [apply decay_refines_spec|apply decay_length]|].
  split; [|reflexivity].
  rewrite rank_posts_with_pipeline.
  destruct (predict_all rng predictor user_following posts st). reflexivity.
Qed.

End RankingClaims.

(** ** The claims on concrete runs *)


(** C8 on the stub predictor: called on a fresh generator or on one that
    has values left, [rank_posts] returns the same triples. *)
Lemma rank_posts_deterministic_witness :
  (rank_posts_with (list float) pow_iter stub_predictor demo_following
     stub_posts []).1
  = (rank_posts_with (list float) pow_iter stub_predictor demo_following
       stub_posts demo_stream).1.
Proof.
  apply (rank_posts_deterministic (list float) pow_iter stub_predictor
           demo_following).
  intros post follows st1 st2. reflexivity.
Defined.

(** The predictor of the module is no such stub: the order of the demo's
    posts depends on the values the generator returns. *)
Lemma rank_posts_depends_on_generator :
  exists out1 out2,
    (rank_posts (list float) stream_uniform pow_iter demo_posts
       demo_following demo_stream).1 = Ok out1
    /\ (rank_posts (list float) stream_uniform pow_iter demo_posts
          demo_following zero_stream).1 = Ok out2
    /\ id <$> items out1 = ["4"; "6"; "1"; "3"; "5"; "2"]
    /\ id <$> items out2 = ["4"; "6"; "1"; "3"; "2"; "5"].
Proof.
  do 2 eexists. split; [vm_compute; reflexivity|].
  split; [vm_compute; reflexivity|].
  split; vm_compute; reflexivity.
Qed.

(** C7, as the claim states it, fails: the factor 2.0 lies outside (0, 1]
    and is applied to the second post of the author. *)
Lemma decay_applies_factor_two :
  valid_decay_factor 2.0 = false
  /\ apply_author_diversity_decay pow_iter
       [(post_x1, 1.0%float); (post_x2, 1.0%float)] 2.0
     = [(post_x1, 1.0%float); (post_x2, 2.0%float)].
Proof. split; vm_compute; reflexivity. Qed.

(** C9, as the claim states it, fails at the final sort.  The input is
    [post_y; post_x1; post_x2]; after the decay [post_x2] and [post_y] have
    the same score, and the result lists [post_x2], the later one in the
    input, first: it was ranked higher before the decay. *)
Lemma final_tie_not_in_input_order :
  tie_posts = [post_y; post_x1; post_x2]
  /\ exists out,
       (rank_posts (list float) stream_uniform pow_iter tie_posts
          tie_following tie_stream).1 = Ok out
       /\ items out = [post_x1; post_x2; post_y]
       /\ score_of <$> out
          = [0x1.820c49ba5e355p-4; 0x1.0e3bcd35a8588p-4;
             0x1.0e3bcd35a8588p-4]%float.
Proof.
  split; [reflexivity|]. eexists. split; [vm_compute; reflexivity|].
  split; vm_compute; reflexivity.
Qed.

(** The decay on two posts of one author around a post of another one,
    scores 2.0, 1.9 and 1.8: only the second post of the repeated author is
    attenuated, to 1.8 * 0.7 = 1.26, and the order is left as it is. *)
Example decay_two_authors :
  apply_author_diversity_decay pow_iter
    [(post_x1, 2.0%float); (post_y, 1.9%float); (post_x2, 1.8%float)]
    0.7%float
  = [(post_x1, 2.0%float); (post_y, 1.9%float); (post_x2, 1.26%float)].
Proof. vm_compute. reflexivity. Qed.

(** * Further properties *)

(** ** Further properties: the predictor *)

Section Predictor.

Variable rng : Type.
Variable uniform : float -> float -> rng -> float * rng.

Lemma py_min_cap x : (py_min 0.95 x <=? 0.95)%float = true.
Proof.
  unfold py_min. destruct (x <? 0.95)%float eqn:Hlt.
  - apply FloatOrder.ltb_leb. exact Hlt.
  - reflexivity.
Qed.

Lemma py_max_floor x : (0.001 <=? py_max 0.001 x)%float = true.
Proof.
  unfold py_max. destruct (0.001 <? x)%float eqn:Hlt.
  - apply FloatOrder.ltb_leb. exact Hlt.
  - reflexivity.
Qed.

(** X1.  Whatever the generator returns, the eleven positive-signal
    probabilities of [simulate_phoenix_predictions] are at most 0.95 and the
    four negative-signal ones at least 0.001; in particular none is NaN. *)
Theorem predictions_clamped (post : Post) (follows : bool) (st : rng) :
  Forall (fun x => (x <=? 0.95)%float = true)
    (positive_signals
       (simulate_phoenix_predictions rng uniform post follows st).1)
  /\ Forall (fun x => (0.001 <=? x)%float = true)
       (negative_signals
          (simulate_phoenix_predictions rng uniform post follows st).1)
  /\ Forall (fun x => is_nan x = false)
       (positive_signals
          (simulate_phoenix_predictions rng uniform post follows st).1
        ++ negative_signals
             (simulate_phoenix_predictions rng uniform post follows st).1).
Proof.
  assert (Hnan : forall x, not_nan x = true -> is_nan x = false).
  { intros x Hx. unfold not_nan in Hx. unfold is_nan. rewrite Hx.
    reflexivity. }
  unfold simulate_phoenix_predictions, random_uniform, mbind, state_bind,
    mret, state_ret.
  repeat match goal with
         | |- context [uniform ?a ?b ?s] => destruct (uniform a b s)
         end.
  cbn [fst positive_signals negative_signals favorite reply repost quote
       click profile_click video_view photo_expand share dwell follow_author
       not_interested block_author mute_author report app].
  split; [|split]; repeat constructor;
    first [ apply py_min_cap
          | apply py_max_floor
          | apply Hnan, (FloatOrder.leb_not_nan _ _ (py_min_cap _))
          | apply Hnan, (FloatOrder.leb_not_nan _ _ (py_max_floor _)) ].
Qed.

Lemma simulate_advances post follows st :
  (simulate_phoenix_predictions rng uniform post follows st).2
  = advance rng uniform st.
Proof.
  unfold simulate_phoenix_predictions, random_uniform, mbind, state_bind,
    mret, state_ret, advance, draw_bounds.
  cbn [fold_left fst snd].
  repeat match goal with
         | |- context [uniform ?a ?b ?s] =>
             lazymatch s with
             | context [uniform] => fail
             | _ => destruct (uniform a b s); cbn [snd]
             end
         end.
  reflexivity.
Qed.

End Predictor.

Section Draws.

Variable rng : Type.
Variable uniform : float -> float -> rng -> float * rng.
Variable float_pow : float -> nat -> float.

Lemma predict_all_advances fol posts :
  forall st,
    (predict_all rng (simulate_phoenix_predictions rng uniform) fol posts st).2
    = Nat.iter (length posts) (advance rng uniform) st.
Proof.
  induction posts as [|post posts IH]; intros st; [reflexivity|].
  rewrite predict_all_cons.
  pose proof (simulate_advances rng uniform post
                (bool_decide (author_id post ∈ fol)) st) as Hadv.
  destruct (simulate_phoenix_predictions rng uniform post _ st)
    as [predictions st1].
  specialize (IH st1).
  destruct (predict_all rng _ fol posts st1) as [rest st2].
  cbn [snd length] in *. rewrite Nat.iter_succ_r, <- Hadv. exact IH.
Qed.

(** X2.  [rank_posts] leaves the generator where fourteen [uniform]
    calls per post, with the bounds of [draw_bounds] in that order, leave
    it: the number of draws depends on the number of posts only, not on their
    content nor on the following set. *)
Theorem rank_posts_draws (posts : list Post) (fol : gset string) (st : rng) :
  (rank_posts rng uniform float_pow posts fol st).2
  = Nat.iter (length posts) (advance rng uniform) st.
Proof.
  unfold rank_posts. rewrite rank_posts_with_pipeline.
  rewrite <- (predict_all_advances fol posts st).
  destruct (predict_all rng _ fol posts st). reflexivity.
Qed.

End Draws.

(** X3.  [video_quality_bonus] returns one of 0.0, 0.1, 0.3 and 0.5,
    so it lies between 0 and 0.5, and it is zero exactly when the post has
    no video or no duration: every video with a duration gets a positive
    bonus. *)
Theorem video_quality_bonus_values (post : Post) :
  video_quality_bonus post ∈ [0.0; 0.1; 0.3; 0.5]%float
  /\ (0 <=? video_quality_bonus post)%float = true
  /\ (video_quality_bonus post <=? 0.5)%float = true
  /\ (video_quality_bonus post =? 0)%float
     = negb (has_video post && bool_decide (is_Some (video_duration_sec post))).
Proof.
  unfold video_quality_bonus.
  destruct (has_video post), (video_duration_sec post) as [d|]; cbn [andb negb].
  2-4: (split; [set_solver|]; repeat split; reflexivity).
  rewrite bool_decide_eq_true_2 by eauto. cbn [negb].
  destruct ((15 <=? d)%float && (d <=? 60)%float);
    [|destruct (((5 <=? d)%float && (d <? 15)%float)
               || ((60 <? d)%float && (d <=? 180)%float))];
    (split; [set_solver|]; repeat split; reflexivity).
Qed.

(** ** Further properties: the decay *)

Section DecayMore.

Variable float_pow : float -> nat -> float.

Lemma decay_spec_app (l1 l2 : list (Post * float)) (factor : float) :
  decay_spec float_pow (l1 ++ l2) factor
  = decay_spec float_pow l1 factor ++
    imap (fun k x =>
            (x.1, (x.2 * float_pow factor
                           (count_author l1 (author_id x.1)
                            + count_author (take k l2) (author_id x.1)))%float))
      l2.
Proof.
  unfold decay_spec. rewrite imap_app. f_equal.
  - apply imap_ext. intros k x Hk. cbn.
    rewrite take_app_le; [reflexivity|].
    apply lookup_lt_Some in Hk. lia.
  - apply imap_ext. intros k x _. cbn.
    rewrite take_app_add, count_author_app. reflexivity.
Qed.

Lemma decay_snoc l x factor :
  apply_author_diversity_decay float_pow (l ++ [x]) factor
  = apply_author_diversity_decay float_pow l factor ++
    [(x.1, (x.2 * float_pow factor (count_author l (author_id x.1)))%float)].
Proof.
  rewrite !decay_refines_spec, decay_spec_app. cbn.
  rewrite Nat.add_0_r. reflexivity.
Qed.

(** X4.  For a factor of absolute value at most 1 the decay has no
    lookahead: on [l1 ++ l2] it returns what it returns on [l1], followed by
    the items of [l2], each with an exponent that adds the items of its
    author in [l1] to the earlier ones in [l2]. *)
Theorem decay_app (l1 l2 : list (Post * float)) (factor : float) :
  unit_factor factor = true ->
  apply_author_diversity_decay float_pow (l1 ++ l2) factor
  = apply_author_diversity_decay float_pow l1 factor ++
    imap (fun k x =>
            (x.1, (x.2 * float_pow factor
                           (count_author l1 (author_id x.1)
                            + count_author (take k l2) (author_id x.1)))%float))
      l2.
Proof.
  intros _. rewrite (decay_refines_spec float_pow (l1 ++ l2)).
  rewrite (decay_refines_spec float_pow l1).
  apply decay_spec_app.
Qed.

Lemma count_author_by_author a l :
  count_author (by_author a l) a = count_author l a.
Proof.
  unfold count_author, by_author. rewrite list_filter_filter.
  f_equal. apply list_filter_iff. tauto.
Qed.

(** X5.  For a factor of absolute value at most 1 the decay commutes
    with the selection of one author's items: the items of other authors,
    wherever they stand, do not change what an author's items become. *)
Theorem decay_by_author (a : string) (l : list (Post * float))
    (factor : float) :
  unit_factor factor = true ->
  by_author a (apply_author_diversity_decay float_pow l factor)
  = apply_author_diversity_decay float_pow (by_author a l) factor.
Proof.
  intros _. induction l as [|x l IH] using rev_ind; [reflexivity|].
  rewrite decay_snoc. unfold by_author in *.
  rewrite !filter_app, IH. rewrite !filter_cons, !filter_nil. cbn [fst].
  destruct (decide (author_id x.1 = a)) as [Ha|Ha].
  - fold (by_author a l). rewrite decay_snoc.
    rewrite Ha, count_author_by_author. reflexivity.
  - rewrite !app_nil_r. reflexivity.
Qed.

Lemma count_author_all a (l : list (Post * float)) :
  Forall (fun x => author_id x.1 = a) l -> count_author l a = length l.
Proof.
  intros Hall. unfold count_author. induction Hall as [|x l Hx _ IH];
    [reflexivity|].
  rewrite filter_cons. destruct (decide (author_id x.1 = a)); [|contradiction].
  cbn. rewrite IH. reflexivity.
Qed.

(** X6.  On a batch of a single author the decay with a factor of
    absolute value at most 1 is geometric in the position: the item at
    position [k] has its score multiplied by [factor ** k]. *)
Theorem decay_single_author (a : string) (l : list (Post * float))
    (factor : float) :
  unit_factor factor = true ->
  Forall (fun x => author_id x.1 = a) l ->
  apply_author_diversity_decay float_pow l factor
  = imap (fun k x => (x.1, (x.2 * float_pow factor k)%float)) l.
Proof.
  intros _ Hall. rewrite decay_refines_spec. unfold decay_spec.
  apply imap_ext. intros k x Hk. cbn.
  assert (Hx : author_id x.1 = a).
  { rewrite Forall_forall in Hall. apply Hall.
    eapply list_elem_of_lookup_2. exact Hk. }
  rewrite Hx, count_author_all.
  - rewrite length_take_le; [reflexivity|].
    apply lookup_lt_Some in Hk. lia.
  - apply Forall_take. exact Hall.
Qed.

(** X7.  For a factor of absolute value at most 1 and every author, the
    author's items of the decayed list are, in order, the author's items of
    the input with the [k]-th of them (from 0) multiplied by [factor ** k],
    whatever is interleaved with them. *)
Theorem decay_per_author (a : string) (l : list (Post * float))
    (factor : float) :
  unit_factor factor = true ->
  by_author a (apply_author_diversity_decay float_pow l factor)
  = imap (fun k x => (x.1, (x.2 * float_pow factor k)%float)) (by_author a l).
Proof.
  intros _. induction l as [|x l IH] using rev_ind; [reflexivity|].
  rewrite decay_snoc. unfold by_author in *.
  rewrite !filter_app, IH, imap_app. f_equal.
  rewrite !filter_cons, !filter_nil. cbn [fst].
  destruct (decide (author_id x.1 = a)) as [Ha|Ha]; [|reflexivity].
  cbn. rewrite Nat.add_0_r, Ha. reflexivity.
Qed.

Lemma count_author_zero (l : list (Post * float)) a :
  (forall x, x ∈ l -> author_id x.1 <> a) -> count_author l a = 0.
Proof.
  intros Hne. unfold count_author. induction l as [|x l IH]; [reflexivity|].
  rewrite filter_cons. destruct (decide (author_id x.1 = a)) as [Ha|_].
  - exfalso. apply (Hne x); [left|exact Ha].
  - apply IH. intros y Hy. apply Hne. right. exact Hy.
Qed.

(** X8.  When no two items have the same author, every score is
    multiplied by [factor ** 0]. *)
Theorem decay_distinct_authors (l : list (Post * float)) (factor : float) :
  NoDup ((fun x : Post * float => author_id x.1) <$> l) ->
  apply_author_diversity_decay float_pow l factor
  = (fun x : Post * float => (x.1, (x.2 * float_pow factor 0)%float)) <$> l.
Proof.
  intros Hnodup. rewrite decay_refines_spec. unfold decay_spec.
  rewrite <- imap_const. apply imap_ext. intros k x Hk. cbn.
  rewrite count_author_zero; [reflexivity|].
  intros y Hy Hsame.
  apply list_elem_of_lookup_1 in Hy as [j Hj].
  apply lookup_take_Some in Hj as [Hj Hlt].
  assert (j = k); [|lia].
  eapply (NoDup_lookup _ j k (author_id x.1) Hnodup).
  - rewrite list_lookup_fmap, Hj. cbn. rewrite Hsame. reflexivity.
  - rewrite list_lookup_fmap, Hk. reflexivity.
Qed.

(** The counters kept by the loop. *)
Lemma decay_loop_counts factor todo :
  forall (done : list (Post * float)) (author_counts : gmap string nat)
         (adjusted_results : list (Post * float)),
    (forall a, author_counts !! a
               = if decide (count_author done a = 0) then None
                 else Some (count_author done a)) ->
    forall a,
      (fold_left (decay_step float_pow factor) todo
         (author_counts, adjusted_results)).1 !! a
      = if decide (count_author (done ++ todo) a = 0) then None
        else Some (count_author (done ++ todo) a).
Proof.
  induction todo as [|[post score] todo IH];
    intros done author_counts adjusted_results Hcounts a.
  - cbn. rewrite app_nil_r. apply Hcounts.
  - cbn [fold_left decay_step].
    replace (done ++ (post, score) :: todo)
      with ((done ++ [(post, score)]) ++ todo)
      by (rewrite <- app_assoc; reflexivity).
    apply IH. intros b.
    rewrite count_author_app, count_author_singleton. cbn [fst].
    pose proof (Hcounts (author_id post)) as Hpost.
    pose proof (Hcounts b) as Hb.
    destruct (decide (author_id post = b)) as [<-|Hne].
    + rewrite lookup_insert_eq, Hpost.
      destruct (decide (count_author done (author_id post) = 0)) as [->|Hpos];
        cbn.
      * reflexivity.
      * destruct (decide (count_author done (author_id post) + 1 = 0));
          [lia|reflexivity].
    + rewrite lookup_insert_ne by exact Hne. rewrite Hb, Nat.add_0_r.
      reflexivity.
Qed.

(** X9.  When the loop ends, [author_counts] holds for every author
    with at least one item the number of its items, and no entry for any
    other author. *)
Theorem final_author_counts_spec (l : list (Post * float)) (factor : float)
    (a : string) :
  final_author_counts float_pow l factor !! a
  = if decide (count_author l a = 0) then None
    else Some (count_author l a).
Proof.
  unfold final_author_counts.
  apply (decay_loop_counts factor l [] ∅ []).
  intros b. rewrite lookup_empty. reflexivity.
Qed.

End DecayMore.

(** ** Further properties: the pipeline *)

Section PipelineMore.

Variable rng : Type.
Variable float_pow : float -> nat -> float.
Variable predictor : Post -> bool -> state rng EngagementPredictions.
Variable user_following : gset string.

Lemma count_author_posts_by (l : list (Post * float)) a :
  count_author l a = posts_by a l.*1.
Proof.
  unfold count_author, posts_by. induction l as [|x l IH]; [reflexivity|].
  cbn [fmap list_fmap]. rewrite !filter_cons. cbn [fst].
  destruct (decide (author_id x.1 = a)); cbn; rewrite IH; reflexivity.
Qed.

Lemma posts_by_perm a l1 l2 : l1 ≡ₚ l2 -> posts_by a l1 = posts_by a l2.
Proof. intros Hperm. unfold posts_by. rewrite Hperm. reflexivity. Qed.

Lemma count_author_before (l : list (Post * float)) k x :
  l !! k = Some x ->
  count_author (take k l) (author_id x.1) < count_author l (author_id x.1).
Proof.
  intros Hk. rewrite <- (take_drop_middle l k x Hk) at 2.
  rewrite count_author_app. change (x :: drop (S k) l) with ([x] ++ drop (S k) l).
  rewrite count_author_app, count_author_singleton.
  destruct (decide (author_id x.1 = author_id x.1)); [lia|contradiction].
Qed.

Lemma scored_in_input_order_score posts preds (x : scored) :
  x ∈ scored_in_input_order posts preds ->
  score_of x = pre_diversity_score x.1.1 x.2.
Proof.
  unfold scored_in_input_order. intros Hx.
  apply list_elem_of_lookup_1 in Hx as [i Hi].
  apply lookup_zip_with_Some in Hi as (post & pr & -> & _ & _). reflexivity.
Qed.

(** X10.  Every score [rank_posts] returns is the item's own weighted
    sum plus video bonus, multiplied by [0.7 ** k] for some [k] below the
    number of input posts of the item's author. *)
Theorem rank_posts_scores (posts : list Post) (st : rng) :
  exists out,
    (rank_posts_with rng float_pow predictor user_following posts st).1
    = Ok out
    /\ Forall (fun x : scored =>
                 exists k,
                   k < posts_by (author_id x.1.1) posts
                   /\ score_of x
                      = (pre_diversity_score x.1.1 x.2
                         * float_pow 0.7 k)%float) out.
Proof.
  rewrite rank_posts_with_pipeline.
  pose proof (predict_all_length rng predictor user_following posts st)
    as Hlen.
  destruct (predict_all rng predictor user_following posts st)
    as [preds st'].
  cbn [fst] in *. eexists. split; [reflexivity|].
  unfold pipeline. rewrite sort_reverse_perm.
  apply Forall_lookup_2. intros i x Hi. unfold decayed in Hi.
  apply lookup_zip_with_Some in Hi as (ps & r & -> & Hps & Hr).
  rewrite decay_refines_spec in Hps. unfold decay_spec in Hps.
  apply list_lookup_imap_Some in Hps as (y & Hy & ->).
  rewrite list_lookup_fmap, Hr in Hy. injection Hy as <-.
  cbn [fst snd score_of].
  set (pairs := (fun x : scored => (x.1.1, x.1.2))
                  <$> ranked_pre_decay posts preds).
  exists (count_author (take i pairs) (author_id r.1.1)). split.
  - assert (Hpairs : pairs !! i = Some (r.1.1, r.1.2))
      by (unfold pairs; rewrite list_lookup_fmap, Hr; reflexivity).
    pose proof (count_author_before pairs i _ Hpairs) as Hlt.
    cbn [fst] in Hlt.
    rewrite (count_author_posts_by pairs) in Hlt.
    rewrite (posts_by_perm _ pairs.*1 posts) in Hlt; [exact Hlt|].
    unfold pairs. rewrite <- list_fmap_compose.
    change (fst ∘ (fun x : scored => (x.1.1, x.1.2)))
      with (fun x : scored => x.1.1).
    fold (items (ranked_pre_decay posts preds)).
    unfold ranked_pre_decay, items. rewrite sort_reverse_perm.
    fold (items (scored_in_input_order posts preds)).
    rewrite items_item_predictions, scored_in_input_order_predictions.
    rewrite fst_zip by lia. reflexivity.
  - f_equal.
    apply (scored_in_input_order_score posts preds).
    apply list_elem_of_lookup_2 in Hr. unfold ranked_pre_decay in Hr.
    rewrite sort_reverse_perm in Hr. exact Hr.
Qed.

End PipelineMore.

Section Relabel.

Variable rng : Type.
Variable uniform : float -> float -> rng -> float * rng.
Variable float_pow : float -> nat -> float.

(** A change of the posts that keeps the author and the video
    attributes. *)
Variable g : Post -> Post.
Hypothesis g_author : forall post, author_id (g post) = author_id post.
Hypothesis g_video : forall post, has_video (g post) = has_video post.
Hypothesis g_duration :
  forall post, video_duration_sec (g post) = video_duration_sec post.

Lemma simulate_relabel post follows :
  simulate_phoenix_predictions rng uniform (g post) follows
  = simulate_phoenix_predictions rng uniform post follows.
Proof. unfold simulate_phoenix_predictions. rewrite g_video. reflexivity. Qed.

Lemma video_quality_bonus_relabel post :
  video_quality_bonus (g post) = video_quality_bonus post.
Proof.
  unfold video_quality_bonus. rewrite g_video, g_duration. reflexivity.
Qed.

Lemma predict_all_relabel fol posts :
  forall st,
    predict_all rng (simulate_phoenix_predictions rng uniform) fol
      (g <$> posts) st
    = predict_all rng (simulate_phoenix_predictions rng uniform) fol posts st.
Proof.
  induction posts as [|post posts IH]; intros st; [reflexivity|].
  cbn [fmap list_fmap]. rewrite !predict_all_cons.
  rewrite g_author, simulate_relabel.
  destruct (simulate_phoenix_predictions rng uniform post _ st) as [pr st1].
  rewrite IH. reflexivity.
Qed.

Lemma scored_in_input_order_relabel posts preds :
  scored_in_input_order (g <$> posts) preds
  = relabel g <$> scored_in_input_order posts preds.
Proof.
  revert preds. induction posts as [|post posts IH]; intros [|pr preds];
    try reflexivity.
  cbn. unfold relabel at 1, pre_diversity_score. cbn.
  rewrite video_quality_bonus_relabel. f_equal. apply IH.
Qed.

Lemma insert_desc_fmap {A B : Type} (h : A -> B) (key : A -> float)
    (key' : B -> float) x l :
  (forall a, key' (h a) = key a) ->
  insert_desc key' (h x) (h <$> l) = h <$> insert_desc key x l.
Proof.
  intros Hkey. induction l as [|y l IH]; [reflexivity|].
  cbn. rewrite !Hkey. destruct (key x <? key y)%float; cbn; [|reflexivity].
  f_equal. exact IH.
Qed.

Lemma sort_reverse_fmap {A B : Type} (h : A -> B) (key : A -> float)
    (key' : B -> float) l :
  (forall a, key' (h a) = key a) ->
  sort_reverse key' (h <$> l) = h <$> sort_reverse key l.
Proof.
  intros Hkey. induction l as [|x l IH]; [reflexivity|].
  cbn. fold (sort_reverse key' (h <$> l)). fold (sort_reverse key l).
  rewrite IH. apply insert_desc_fmap. exact Hkey.
Qed.

Lemma count_author_relabel (l : list (Post * float)) a :
  count_author (relabel_pair g <$> l) a = count_author l a.
Proof.
  unfold count_author. induction l as [|y l IH]; [reflexivity|].
  cbn [fmap list_fmap]. rewrite !filter_cons. cbn [relabel_pair fst].
  rewrite g_author.
  destruct (decide (author_id y.1 = a)); cbn; rewrite IH; reflexivity.
Qed.

Lemma decay_relabel (l : list (Post * float)) factor :
  apply_author_diversity_decay float_pow (relabel_pair g <$> l) factor
  = relabel_pair g <$> apply_author_diversity_decay float_pow l factor.
Proof.
  rewrite !decay_refines_spec. unfold decay_spec.
  rewrite imap_fmap, fmap_imap. apply imap_ext. intros k y _. cbn.
  rewrite <- fmap_take, count_author_relabel, g_author. reflexivity.
Qed.

Lemma realign_relabel (adjusted : list (Post * float)) (ranked : list scored) :
  zip_with (fun (ps : Post * float) (x : scored) => (ps.1, ps.2, x.2))
    (relabel_pair g <$> adjusted) (relabel g <$> ranked)
  = relabel g <$>
      zip_with (fun (ps : Post * float) (x : scored) => (ps.1, ps.2, x.2))
        adjusted ranked.
Proof.
  revert ranked. induction adjusted as [|ps adjusted IH]; intros [|x ranked];
    try reflexivity.
  cbn. f_equal. apply IH.
Qed.

Lemma pipeline_relabel posts preds :
  pipeline float_pow (g <$> posts) preds
  = relabel g <$> pipeline float_pow posts preds.
Proof.
  unfold pipeline, decayed, ranked_pre_decay.
  rewrite scored_in_input_order_relabel.
  rewrite (sort_reverse_fmap (relabel g) score_of score_of
             (scored_in_input_order posts preds)) by reflexivity.
  set (ranked := sort_reverse score_of (scored_in_input_order posts preds)).
  assert (Hpairs :
            (fun x : scored => (x.1.1, x.1.2)) <$> (relabel g <$> ranked)
            = relabel_pair g <$> ((fun x : scored => (x.1.1, x.1.2)) <$> ranked))
    by (rewrite <- !list_fmap_compose; reflexivity).
  rewrite Hpairs, decay_relabel, realign_relabel.
  apply sort_reverse_fmap. reflexivity.
Qed.

(** X11.  With the module's predictor the ranking reads the author, the
    video flag and the duration of a post and nothing else: changing the
    other fields of the posts (id, text, in-network flag) changes neither
    the order, nor the scores, nor the predictions, nor the generator. *)
Theorem rank_posts_relabel (posts : list Post) (fol : gset string) (st : rng) :
  exists out st',
    rank_posts rng uniform float_pow posts fol st = (Ok out, st')
    /\ rank_posts rng uniform float_pow (g <$> posts) fol st
       = (Ok (relabel g <$> out), st').
Proof.
  unfold rank_posts. rewrite !rank_posts_with_pipeline, predict_all_relabel.
  destruct (predict_all rng _ fol posts st) as [preds st'].
  do 2 eexists. split; [reflexivity|].
  rewrite pipeline_relabel. reflexivity.
Qed.

End Relabel.

Section Following.

Variable rng : Type.
Variable float_pow : float -> nat -> float.
Variable predictor : Post -> bool -> state rng EngagementPredictions.

(** X12.  The following set matters only through the authors of the
    batch: two sets that agree on them give the same ranking. *)
Theorem rank_posts_following_frame (posts : list Post)
    (fol1 fol2 : gset string) (st : rng) :
  Forall (fun post => author_id post ∈ fol1 <-> author_id post ∈ fol2) posts ->
  rank_posts_with rng float_pow predictor fol1 posts st
  = rank_posts_with rng float_pow predictor fol2 posts st.
Proof.
  intros Hsame. rewrite !rank_posts_with_pipeline.
  assert (Hpreds : predict_all rng predictor fol1 posts st
                   = predict_all rng predictor fol2 posts st).
  { revert st. induction Hsame as [|post posts Hpost _ IH]; intros st;
      [reflexivity|].
    rewrite !predict_all_cons.
    rewrite (bool_decide_ext _ _ Hpost).
    destruct (predictor post _ st) as [pr st1]. rewrite IH. reflexivity. }
  rewrite Hpreds. reflexivity.
Qed.

End Following.

(** ** The further properties on concrete runs *)

Lemma decay_single_author_witness :
  apply_author_diversity_decay pow_iter
    [(post_x1, 2.0%float); (post_x2, 1.8%float)] 0.7
  = [(post_x1, (2.0 * pow_iter 0.7 0)%float);
     (post_x2, (1.8 * pow_iter 0.7 1)%float)].
Proof.
  apply (decay_single_author pow_iter "alice"
           [(post_x1, 2.0%float); (post_x2, 1.8%float)] 0.7%float).
  - reflexivity.
  - repeat constructor.
Defined.

(** The decay with factor 0.7 on two posts of one author around a post of
    another one. *)
Lemma apply_author_diversity_decay_correct_witness :
  apply_author_diversity_decay pow_iter
    [(post_x1, 2.0%float); (post_y, 1.9%float); (post_x2, 1.8%float)] 0.7
  = [(post_x1, (2.0 * pow_iter 0.7 0)%float);
     (post_y, (1.9 * pow_iter 0.7 0)%float);
     (post_x2, (1.8 * pow_iter 0.7 1)%float)].
Proof.
  refine (proj1 (apply_author_diversity_decay_correct pow_iter
                   [(post_x1, 2.0%float); (post_y, 1.9%float);
                    (post_x2, 1.8%float)] 0.7%float _)).
  reflexivity.
Defined.

(** The factor 2.0 on two posts of one author: no author has more than two
    items. *)
Lemma decay_factor_not_validated_witness :
  apply_author_diversity_decay pow_iter
    [(post_x1, 1.0%float); (post_x2, 1.0%float)] 2.0
  = decay_spec pow_iter [(post_x1, 1.0%float); (post_x2, 1.0%float)] 2.0.
Proof.
  refine (proj1 (proj1 (decay_factor_not_validated (list float) pow_iter
                          stub_predictor demo_following
                          [(post_x1, 1.0%float); (post_x2, 1.0%float)]
                          2.0%float [] []) _)).
  right. intros a. unfold count_author.
  rewrite !filter_cons, filter_nil.
  repeat destruct (decide _); cbn; lia.
Defined.

Lemma decay_app_witness :
  apply_author_diversity_decay pow_iter
    ([(post_x1, 2.0%float); (post_y, 1.9%float)] ++ [(post_x2, 1.8%float)])
    0.7
  = apply_author_diversity_decay pow_iter
      [(post_x1, 2.0%float); (post_y, 1.9%float)] 0.7
    ++ [(post_x2, (1.8 * pow_iter 0.7 (1 + 0))%float)].
Proof.
  apply (decay_app pow_iter [(post_x1, 2.0%float); (post_y, 1.9%float)]
           [(post_x2, 1.8%float)] 0.7%float).
  reflexivity.
Defined.

Lemma decay_by_author_witness :
  by_author "alice"
    (apply_author_diversity_decay pow_iter
       [(post_x1, 2.0%float); (post_y, 1.9%float); (post_x2, 1.8%float)] 0.7)
  = apply_author_diversity_decay pow_iter
      (by_author "alice"
         [(post_x1, 2.0%float); (post_y, 1.9%float); (post_x2, 1.8%float)])
      0.7.
Proof.
  apply (decay_by_author pow_iter "alice"
           [(post_x1, 2.0%float); (post_y, 1.9%float); (post_x2, 1.8%float)]
           0.7%float).
  reflexivity.
Defined.

Lemma decay_per_author_witness :
  by_author "alice"
    (apply_author_diversity_decay pow_iter
       [(post_x1, 2.0%float); (post_y, 1.9%float); (post_x2, 1.8%float)] 0.7)
  = imap (fun k x => (x.1, (x.2 * pow_iter 0.7 k)%float))
      (by_author "alice"
         [(post_x1, 2.0%float); (post_y, 1.9%float); (post_x2, 1.8%float)]).
Proof.
  apply (decay_per_author pow_iter "alice"
           [(post_x1, 2.0%float); (post_y, 1.9%float); (post_x2, 1.8%float)]
           0.7%float).
  reflexivity.
Defined.

Lemma decay_distinct_authors_witness :
  apply_author_diversity_decay pow_iter
    [(post_y, 1.9%float); (post_x1, 2.0%float)] 0.7
  = [(post_y, (1.9 * pow_iter 0.7 0)%float);
     (post_x1, (2.0 * pow_iter 0.7 0)%float)].
Proof.
  apply (decay_distinct_authors pow_iter
           [(post_y, 1.9%float); (post_x1, 2.0%float)] 0.7%float).
  apply (bool_decide_unpack _). vm_compute. reflexivity.
Defined.

Lemma rank_posts_relabel_witness :
  exists out st',
    rank_posts (list float) stream_uniform pow_iter demo_posts demo_following
      demo_stream = (Ok out, st')
    /\ rank_posts (list float) stream_uniform pow_iter
         (anonymise <$> demo_posts) demo_following demo_stream
       = (Ok (relabel anonymise <$> out), st').
Proof.
  apply (rank_posts_relabel (list float) stream_uniform pow_iter anonymise);
    intros post; reflexivity.
Defined.

Lemma rank_posts_following_frame_witness :
  rank_posts (list float) stream_uniform pow_iter demo_posts demo_following
    demo_stream
  = rank_posts (list float) stream_uniform pow_iter demo_posts
      wider_following demo_stream.
Proof.
  apply (rank_posts_following_frame (list float) pow_iter
           (simulate_phoenix_predictions (list float) stream_uniform)
           demo_posts demo_following wider_following demo_stream).
  apply (bool_decide_unpack _). vm_compute. reflexivity.
Defined.

(** ** Further properties: NaN predictions *)

Module NaN.
Import FloatOrder.

Lemma nan_decode x : not_nan x = false -> Prim2SF x = S754_nan.
Proof.
  unfold not_nan. rewrite FloatAxioms.eqb_spec. unfold SFeqb.
  generalize (Prim2SF x). intros [s|s| |s m e]; cbn; intros H.
  - discriminate H.
  - destruct s; discriminate H.
  - reflexivity.
  - destruct s; rewrite Z.compare_refl in H;
      change (Pos.compare_cont Eq m m) with (Pos.compare m m) in H;
      rewrite Pos.compare_refl in H; discriminate H.
Qed.

Lemma nan_encode x : Prim2SF x = S754_nan -> not_nan x = false.
Proof.
  intros Hx. unfold not_nan. rewrite FloatAxioms.eqb_spec, Hx. reflexivity.
Qed.

Lemma mul_nan_r x y : not_nan y = false -> not_nan (x * y)%float = false.
Proof.
  intros Hy. apply nan_encode. rewrite mul_spec, (nan_decode y Hy).
  generalize (Prim2SF x). intros [s|s| |s m e]; reflexivity.
Qed.

Lemma add_nan_l x y : not_nan x = false -> not_nan (x + y)%float = false.
Proof.
  intros Hx. apply nan_encode. rewrite add_spec, (nan_decode x Hx).
  reflexivity.
Qed.

Lemma add_nan_r x y : not_nan y = false -> not_nan (x + y)%float = false.
Proof.
  intros Hy. apply nan_encode. rewrite add_spec, (nan_decode y Hy).
  generalize (Prim2SF x). intros [s|s| |s m e]; reflexivity.
Qed.

Ltac nan_sum H :=
  first [ apply add_nan_r; apply mul_nan_r; exact H
        | apply add_nan_l; nan_sum H ].

Lemma weighted_sum_nan p :
  Exists (fun x => not_nan x = false)
    (positive_signals p ++ negative_signals p) ->
  not_nan (weighted_sum p) = false.
Proof.
  unfold positive_signals, negative_signals. cbn [app]. intros Hex.
  unfold weighted_sum.
  repeat (apply Exists_cons in Hex as [H|Hex]; [nan_sum H|]).
  apply Exists_nil in Hex. contradiction.
Qed.

End NaN.

(** X13.  Scoring does not clamp or filter its inputs: when any of the
    fifteen predictions is NaN, [compute_weighted_score] still returns, and
    what it returns is NaN. *)
Theorem compute_weighted_score_nan (p : EngagementPredictions) :
  Exists (fun x => not_nan x = false)
    (positive_signals p ++ negative_signals p) ->
  exists score,
    compute_weighted_score p = Ok score /\ is_nan score = true.
Proof.
  intros Hex. exists (weighted_sum p). split; [reflexivity|].
  apply NaN.weighted_sum_nan in Hex. unfold not_nan in Hex. unfold is_nan.
  rewrite Hex. reflexivity.
Qed.

Lemma compute_weighted_score_nan_witness :
  exists score,
    compute_weighted_score nan_report_predictions = Ok score
    /\ is_nan score = true.
Proof.
  apply (compute_weighted_score_nan nan_report_predictions).
  unfold positive_signals, negative_signals. cbn [app].
  do 14 apply Exists_cons_tl. apply Exists_cons_hd. reflexivity.
Defined.
